(** * rabbitmq-async-demo: producer, consumer and topology bootstrap

    A shallow embedding of [src/producer.py], [src/consumer.py] and of the
    message handler of [src/consumer_gui.py].  Python code that calls the
    broker client, prints or raises is written in a state-and-exception
    monad; every call that leaves the program is recorded, in order, together
    with its outcome. *)

From Stdlib Require Import ZArith.
From stdpp Require Import base option list gmap strings pretty.

Set Warnings "-register-all,-clear-no-such-hyp".

Local Open Scope string_scope.
Local Open Scope Z_scope.
Local Open Scope list_scope.

(** ** Python runtime: exceptions, results, the monad *)

Module Py.

(** The exception classes that occur in the three programs.  Only
    [KeyboardInterrupt] lies outside [Exception]. *)
Inductive exn : Type :=
| KeyboardInterrupt
| ValueError               (* json.JSONDecodeError, UnicodeDecodeError *)
| UnicodeEncodeError
| AttributeError
| ZeroDivisionError
| OSError                  (* BrokenPipeError and the like *)
| ChannelClosedByBroker (reply_code : Z)
| ChannelWrongStateError
| StreamLostError
| TypeError
| AMQPConnectionError.     (* network or authentication failure on connect *)

(** [except Exception] *)
Definition is_Exception (e : exn) : bool :=
  match e with
  | KeyboardInterrupt => false
  | _ => true
  end.

(** [except KeyboardInterrupt] *)
Definition is_KeyboardInterrupt (e : exn) : bool :=
  match e with
  | KeyboardInterrupt => true
  | _ => false
  end.

(** [except pika.exceptions.ChannelClosedByBroker] *)
Definition is_ChannelClosedByBroker (e : exn) : bool :=
  match e with
  | ChannelClosedByBroker _ => true
  | _ => false
  end.

Inductive result (A : Type) : Type :=
| Ok (a : A)
| Raised (e : exn).
Arguments Ok {A} a.
Arguments Raised {A} e.

(** A computation reads and writes a state [S] and either returns or raises;
    what it wrote before raising stays written. *)
Definition M (S A : Type) : Type := S → S * result A.

Definition ret {S A} (a : A) : M S A := λ s, (s, Ok a).

Definition bind {S A B} (m : M S A) (k : A → M S B) : M S B :=
  λ s, match m s with
       | (s', Ok a) => k a s'
       | (s', Raised e) => (s', Raised e)
       end.

Definition raise {S A} (e : exn) : M S A := λ s, (s, Raised e).

Definition gets {S A} (f : S → A) : M S A := λ s, (s, Ok (f s)).

Definition modify {S} (f : S → S) : M S unit := λ s, (f s, Ok tt).

(** [try: m  except <catches>: h] *)
Definition try_except {S A} (m : M S A) (catches : exn → bool)
    (h : exn → M S A) : M S A :=
  λ s, match m s with
       | (s', Raised e) => if catches e then h e s' else (s', Raised e)
       | r => r
       end.

(** [try: m  finally: f] *)
Definition try_finally {S A} (m : M S A) (f : M S unit) : M S A :=
  λ s, match m s with
       | (s', r) =>
           match f s' with
           | (s'', Ok _) => (s'', r)
           | (s'', Raised e) => (s'', Raised e)
           end
       end.

(** [if c: m] *)
Definition when {S} (c : bool) (m : M S unit) : M S unit :=
  if c then m else ret tt.

(** [for x in xs: body x] *)
Fixpoint for_each {S A} (xs : list A) (body : A → M S unit) : M S unit :=
  match xs with
  | [] => ret tt
  | x :: xs' => bind (body x) (λ _, for_each xs' body)
  end.

(** [range(a, b)] *)
Definition range (a b : Z) : list Z :=
  map (λ k : nat, a + Z.of_nat k) (seq 0 (Z.to_nat (b - a))).

(** [a % b] on integers: the sign of the result follows the divisor. *)
Definition py_mod {S} (a b : Z) : M S Z :=
  if b =? 0 then raise ZeroDivisionError else ret (a mod b).

(** Truth value of a [str]: the empty string is false. *)
Definition str_truthy (s : string) : bool :=
  match s with
  | EmptyString => false
  | _ => true
  end.

(** Truth value of an [int] option as argparse delivers it ([None] when the
    flag is absent): [None] and [0] are false. *)
Definition opt_int_truthy (o : option Z) : bool :=
  match o with
  | None => false
  | Some z => negb (z =? 0)
  end.

(** Values that reach the display: what [json.loads] builds, with Python's
    [None] as [JNull].  An object keeps its items in a list without repeated
    keys. *)
Inductive json : Type :=
| JNull
| JBool (b : bool)
| JInt (z : Z)
| JFloat (literal : string)
| JStr (s : string)
| JArr (items : list json)
| JObj (items : list (string * json)).

Abbreviation bytes := (list Byte.byte).

Fixpoint assoc (k : string) (items : list (string * json)) : option json :=
  match items with
  | [] => None
  | (k', v) :: rest => if String.eqb k k' then Some v else assoc k rest
  end.

(** [d.get(k)] on a dict: the value, or [None]. *)
Definition dict_get (k : string) (items : list (string * json)) : json :=
  default JNull (assoc k items).

(** [data.get(k)] where [data] is whatever [json.loads] returned: only a
    dict has the attribute [get]. *)
Definition get {S} (data : json) (k : string) : M S json :=
  match data with
  | JObj items => ret (dict_get k items)
  | _ => raise AttributeError
  end.

End Py.

Export Py.

#[global] Instance M_ret {S} : MRet (M S) := λ A, @ret S A.
#[global] Instance M_bind {S} : MBind (M S) := λ A B k m, @bind S A B m k.

(** ** The broker client library

    [pika] is not part of the repository.  Its calls are the effects of the
    programs; the broker's answers to declarations follow the description of
    the broker link. *)

Module Pika.

Record PlainCredentials : Type := {
  cred_username : string;
  cred_password : string
}.

(** A [pika.ConnectionParameters] object, with the keyword arguments that
    the programs pass; for [heartbeat] and [blocked_connection_timeout],
    [None] is an argument left out, so the library's default applies. *)
Record ConnectionParameters : Type := {
  host : string;
  virtual_host : string;
  credentials : PlainCredentials;
  connection_name : string;
  heartbeat : option Z;
  blocked_connection_timeout : option Z
}.

(** [pika.ConnectionParameters(host=..., virtual_host=..., credentials=...,
    ...)].  The library, which is not part of the repository, checks the
    type of [credentials]: anything but a credentials object, so also
    [None], is refused with [TypeError]. *)
Definition connection_parameters {S} (host virtual_host : string)
    (credentials : option PlainCredentials) (connection_name : string)
    (heartbeat blocked_connection_timeout : option Z)
    : M S ConnectionParameters :=
  match credentials with
  | Some c =>
      ret (Build_ConnectionParameters host virtual_host c connection_name
             heartbeat blocked_connection_timeout)
  | None => raise TypeError
  end.

Record BasicProperties : Type := {
  content_type : option string;
  delivery_mode : option Z;
  app_id : option string;
  headers : option (list (string * json));
  message_id : option string;
  timestamp : option Z
}.

Definition channel : Type := nat.

(** [method] of a delivery.  The handlers read [method.delivery_tag]; the
    handler of the window consumer also reads [method.channel], which is
    [None] when the frame object has no such attribute. *)
Record Deliver : Type := {
  delivery_tag : Z;
  method_channel : option channel
}.

(** What the library hands to [on_message_callback]: the channel that
    delivered, the method frame, the properties and the body. *)
Record delivery : Type := {
  ch_cb : channel;
  method : Deliver;
  props : option BasicProperties;
  body : bytes
}.

(** Lines written to standard output (elapsed times left out). *)
Inductive line : Type :=
| Got (name : string) (count : Z) (msg_id producer n text : json)
| Waiting (name : string)
| ConsumerDone (name : string) (consumed : Z)
| ErrorInCallback (name : string) (e : exn)
| Published (i count : Z).

(** Every call that leaves the program. *)
Inductive effect : Type :=
| Connect (params : ConnectionParameters)
| Channel
| ExchangeDeclare (ch : channel) (exchange exchange_type : string)
    (durable : bool)
| QueueDeclare (ch : channel) (queue : string) (passive durable : bool)
    (arguments : gmap string string)
| QueueBind (ch : channel) (queue exchange routing_key : string)
| BasicPublish (ch : channel) (exchange routing_key : string) (body : bytes)
    (properties : BasicProperties)
| BasicAck (ch : channel) (delivery_tag : Z)
| BasicNack (ch : channel) (delivery_tag : Z) (requeue : bool)
| StopConsuming (ch : channel)
| ConnClose                       (* [conn.close()] if the connection is open *)
| Print (l : line)
| PrintExc.                       (* [traceback.print_exc()] *)

(** A call with its outcome: [None] when it returned, [Some e] when it
    raised [e]. *)
Abbreviation trace := (list (effect * option exn)).

(** Program variables [V] together with the calls made so far, oldest
    first. *)
Record world (V : Type) : Type := World {
  vars : V;
  log : trace
}.
Arguments World {V} vars log.
Arguments vars {V} w.
Arguments log {V} w.

Definition outcome (r : option exn) : result unit :=
  match r with
  | None => Ok tt
  | Some e => Raised e
  end.

(** Record the call [e] with outcome [r] and return or raise accordingly. *)
Definition emit {V} (e : effect) (r : option exn) : M (world V) unit :=
  λ w, (World (vars w) (log w ++ [(e, r)]), outcome r).

(** A call whose outcome the environment decides: [fault] tells, from the
    calls so far, whether this one raises. *)
Definition perform {V} (fault : trace → effect → option exn) (e : effect)
    : M (world V) unit :=
  λ w, emit e (fault (log w) e) w.

Definition get_var {V A} (f : V → A) : M (world V) A :=
  gets (λ w, f (vars w)).

Definition set_var {V} (f : V → V) : M (world V) unit :=
  modify (λ w, World (f (vars w)) (log w)).

(** The environment in which no call fails. *)
Definition no_fault : trace → effect → option exn := λ _ _, None.

(** *** Broker state and declarations *)

Record exchange_cfg : Type := {
  x_type : string;
  x_durable : bool
}.

Record queue_cfg : Type := {
  q_durable : bool;
  q_arguments : gmap string string
}.

#[global] Instance exchange_cfg_eq_dec : EqDecision exchange_cfg.
Proof. solve_decision. Defined.

#[global] Instance queue_cfg_eq_dec : EqDecision queue_cfg.
Proof. solve_decision. Defined.

(** One connection to one broker: the declared exchanges and queues, the
    bindings as (queue, exchange, routing key), the channels that are open
    and the number the next channel gets. *)
Record link : Type := Link {
  exchanges : gmap string exchange_cfg;
  queues : gmap string queue_cfg;
  bindings : gset (string * string * string);
  open_channels : gset channel;
  next_channel : channel
}.

Definition close_channel (ch : channel) (b : link) : link :=
  Link (exchanges b) (queues b) (bindings b) (open_channels b ∖ {[ch]})
       (next_channel b).

(** Modelled from the spec: the broker's answer to a declaration (the
    broker and the client library lie outside the repository).  A passive
    declaration checks existence and fails with NotFound (404) if absent; an
    active one creates, is idempotent if durability and arguments match and
    fails with PreconditionFailed (406) otherwise; a failed declaration
    closes the channel, and a closed channel refuses every call. *)
Definition respond (e : effect) (b : link) : link * option exn :=
  match e with
  | Channel =>
      (Link (exchanges b) (queues b) (bindings b)
            (open_channels b ∪ {[next_channel b]}) (S (next_channel b)),
       None)
  | QueueDeclare ch q passive durable args =>
      if decide (ch ∈ open_channels b) then
        match queues b !! q with
        | Some cfg =>
            if passive then (b, None)
            else if decide (cfg = Build_queue_cfg durable args) then (b, None)
            else (close_channel ch b, Some (ChannelClosedByBroker 406))
        | None =>
            if passive
            then (close_channel ch b, Some (ChannelClosedByBroker 404))
            else (Link (exchanges b)
                       (<[q := Build_queue_cfg durable args]> (queues b))
                       (bindings b) (open_channels b) (next_channel b),
                  None)
        end
      else (b, Some ChannelWrongStateError)
  | ExchangeDeclare ch x ty durable =>
      if decide (ch ∈ open_channels b) then
        match exchanges b !! x with
        | Some cfg =>
            if decide (cfg = Build_exchange_cfg ty durable) then (b, None)
            else (close_channel ch b, Some (ChannelClosedByBroker 406))
        | None =>
            (Link (<[x := Build_exchange_cfg ty durable]> (exchanges b))
                  (queues b) (bindings b) (open_channels b) (next_channel b),
             None)
        end
      else (b, Some ChannelWrongStateError)
  | QueueBind ch q x rk =>
      if decide (ch ∈ open_channels b) then
        match queues b !! q, exchanges b !! x with
        | Some _, Some _ =>
            (Link (exchanges b) (queues b) (bindings b ∪ {[(q, x, rk)]})
                  (open_channels b) (next_channel b),
             None)
        | _, _ => (close_channel ch b, Some (ChannelClosedByBroker 404))
        end
      else (b, Some ChannelWrongStateError)
  | _ => (b, None)
  end.

(** A call answered by the broker. *)
Definition request (e : effect) : M (world link) unit :=
  λ w, let '(b, r) := respond e (vars w) in
       (World b (log w ++ [(e, r)]), outcome r).

(** Modelled from the spec: [pika.BlockingConnection(params)].  Connecting
    fails on a network or authentication failure; whether it does is for
    the environment to decide, so the call is one of those that [fault]
    answers.  A failed connect leaves no connection. *)
Definition BlockingConnection (fault : trace → effect → option exn)
    (params : ConnectionParameters) : M (world link) unit :=
  perform fault (Connect params).

(** [conn.channel()]: a new channel, numbered by the connection. *)
Definition conn_channel : M (world link) channel :=
  ch ← get_var next_channel;
  request Channel ;;
  mret ch.

Definition queue_declare (ch : channel) (queue : string)
    (passive durable : bool) (arguments : gmap string string)
    : M (world link) unit :=
  request (QueueDeclare ch queue passive durable arguments).

Definition exchange_declare (ch : channel) (exchange exchange_type : string)
    (durable : bool) : M (world link) unit :=
  request (ExchangeDeclare ch exchange exchange_type durable).

Definition queue_bind (ch : channel) (queue exchange routing_key : string)
    : M (world link) unit :=
  request (QueueBind ch queue exchange routing_key).

(** Modelled from the spec: the library's consume loop, which is not part of
    the repository.  Deliveries reach the callback in order, one at a time;
    a callback's exception leaves the loop; after [stop_consuming] the
    running callback finishes and no further delivery is dispatched.  The
    flag [consuming] is read from the program variables by [active]. *)
Fixpoint start_consuming {V} (active : V → bool)
    (on_message_callback : delivery → M (world V) unit)
    (deliveries : list delivery) : M (world V) unit :=
  match deliveries with
  | [] => ret tt
  | d :: rest =>
      on_message_callback d ;;
      go ← get_var active;
      if (go : bool) then start_consuming active on_message_callback rest
      else ret tt
  end.

End Pika.

Export Pika.

(** ** consumer.py *)

Module Consumer.

(** The options that the modelled code reads. *)
Record Namespace : Type := {
  name : string;
  expect : option Z
}.

(** [count] is the variable of [main] that [on_msg] updates; [consuming]
    holds as long as the channel's consumer has not been cancelled. *)
Record locals : Type := {
  count : Z;
  consuming : bool
}.

Definition initial : world locals := World (Build_locals 0 true) [].

(** Lines 12-21.  The connection itself is the state of the monad;
    [fault] is the environment that answers the connect. *)
Definition open_channel (fault : trace → effect → option exn)
    (host vhost username password conn_name : string)
    : M (world link) channel :=
  let creds :=
    if str_truthy username
    then Some (Build_PlainCredentials username password) else None in
  params ← connection_parameters host vhost creds conn_name
              (Some 600) (Some 300);
  BlockingConnection fault params ;;
  conn_channel.

(** Lines 23-35. *)
Definition ensure_queue (ch : channel) (queue : string) (lazy : bool)
    : M (world link) channel :=
  try_except
    (queue_declare ch queue true false ∅ ;;
     mret ch)
    is_ChannelClosedByBroker
    (λ _,
       ch ← conn_channel;
       let qargs : gmap string string := {[ "x-queue-type" := "classic" ]} in
       let qargs := if lazy then <[ "x-queue-mode" := "lazy" ]> qargs
                    else qargs in
       queue_declare ch queue false true qargs ;;
       mret ch).

Section Handler.

(** [json.loads] on a body ([None] when it raises, which it does with a
    [ValueError]), [bytes.decode("utf-8", "ignore")], and the environment's
    faults. *)
Variable json_loads : bytes → option json.
Variable decode_ignore : bytes → string.
Variable fault : trace → effect → option exn.

Definition loads (b : bytes) : M (world locals) json :=
  match json_loads b with
  | Some data => ret data
  | None => raise ValueError
  end.

(** Lines 65-71: the text and the sequence number to show. *)
Definition decode (b : bytes) : M (world locals) (json * json) :=
  try_except
    (data ← loads b;
     text ← get data "text";
     n ← get data "n";
     mret (text, n))
    is_Exception
    (λ _, mret (JStr (decode_ignore b), JStr "?")).

(** Line 63. *)
Definition producer_of (p : option BasicProperties) : json :=
  match p with
  | Some p => dict_get "producer_id" (default [] (headers p))
  | None => JNull
  end.

(** Line 64. *)
Definition msg_id_of (p : option BasicProperties) : json :=
  match p with
  | Some p => from_option JStr JNull (message_id p)
  | None => JNull
  end.

Definition stop_consuming (ch : channel) : M (world locals) unit :=
  perform fault (StopConsuming ch) ;;
  set_var (λ v, Build_locals (count v) false).

(** Lines 75-76: [args.expect and count >= args.expect]. *)
Definition enough (args : Namespace) (c : Z) : bool :=
  opt_int_truthy (expect args) && bool_decide (default 0 (expect args) ≤ c).

(** Lines 60-76. *)
Definition on_msg (args : Namespace) (d : delivery) : M (world locals) unit :=
  set_var (λ v, Build_locals (count v + 1) (consuming v)) ;;
  let producer := producer_of (props d) in
  let msg_id := msg_id_of (props d) in
  tn ← decode (body d);
  c ← get_var count;
  perform fault (Print (Got (name args) c msg_id producer tn.2 tn.1)) ;;
  perform fault (BasicAck (ch_cb d) (delivery_tag (method d))) ;;
  c ← get_var count;
  when (enough args c) (stop_consuming (ch_cb d)).

(** Lines 78-97, without the signal handler: the loop over what the broker
    delivers, and the summary and close that follow in any case. *)
Definition consume (args : Namespace) (deliveries : list delivery)
    : M (world locals) unit :=
  perform fault (Print (Waiting (name args))) ;;
  try_finally
    (try_except
       (start_consuming consuming (on_msg args) deliveries)
       is_KeyboardInterrupt
       (λ _, ret tt))
    (c ← get_var count;
     perform fault (Print (ConsumerDone (name args) c)) ;;
     try_except (perform fault ConnClose) is_Exception (λ _, ret tt)).

End Handler.

End Consumer.

(** ** consumer_gui.py *)

Module ConsumerGui.

Import Consumer.

Section Handler.

Variable json_loads : bytes → option json.
Variable decode_ignore : bytes → string.
Variable fault : trace → effect → option exn.

(** [method.channel] *)
Definition channel_of (m : Deliver) : M (world locals) channel :=
  match method_channel m with
  | Some ch => ret ch
  | None => raise AttributeError
  end.

(** Lines 44-76.  The handler reads [count], [args.name] and [args.expect],
    the names of [consumer.py]'s [main]; they are its parameters here. *)
Definition on_msg (args : Namespace) (d : delivery) : M (world locals) unit :=
  try_except
    (set_var (λ v, Build_locals (count v + 1) (consuming v)) ;;
     let producer := producer_of (props d) in
     let msg_id := msg_id_of (props d) in
     tn ← decode json_loads decode_ignore (body d);
     c ← get_var count;
     perform fault (Print (Got (name args) c msg_id producer tn.2 tn.1)) ;;
     ch ← channel_of (method d);
     perform fault (BasicAck ch (delivery_tag (method d))) ;;
     c ← get_var count;
     when (enough args c) (stop_consuming fault (ch_cb d)))
    is_Exception
    (λ e,
       perform fault (Print (ErrorInCallback (name args) e)) ;;
       perform fault PrintExc ;;
       try_except
         (ch ← channel_of (method d);
          perform fault (BasicNack ch (delivery_tag (method d)) true))
         is_Exception
         (λ _, ret tt)).

End Handler.

End ConsumerGui.

(** ** producer.py *)

Module Producer.

Record Namespace : Type := {
  exchange : string;
  routing_key : string;
  count : Z;
  text : string;
  durable : bool;
  progress_every : Z;
  producer_id : string
}.

(** [props] is the one properties object that [main] updates before each
    publish; the counters tell how often the identifier source and the
    clock have been read. *)
Record locals : Type := {
  props : BasicProperties;
  uuid_draws : nat;
  clock_reads : nat
}.

(** Lines 11-18; [fault] is the environment that answers the connect. *)
Definition open_channel (fault : trace → effect → option exn)
    (host vhost username password conn_name : string)
    : M (world link) channel :=
  let creds :=
    if str_truthy username
    then Some (Build_PlainCredentials username password) else None in
  params ← connection_parameters host vhost creds conn_name None None;
  BlockingConnection fault params ;;
  conn_channel.

(** Lines 20-31. *)
Definition declare_topology (ch : channel)
    (exchange work_queue audit_queue routing_key : string)
    (durable lazy : bool) : M (world link) unit :=
  exchange_declare ch exchange "direct" true ;;
  let qargs : gmap string string := {[ "x-queue-type" := "classic" ]} in
  let qargs := if lazy then <[ "x-queue-mode" := "lazy" ]> qargs
               else qargs in
  queue_declare ch work_queue false durable qargs ;;
  queue_bind ch work_queue exchange routing_key ;;
  when (str_truthy audit_queue)
    (queue_declare ch audit_queue false durable qargs ;;
     queue_bind ch audit_queue exchange routing_key).

(** Lines 59-64. *)
Definition initial_props (args : Namespace) (hostname : string)
    : BasicProperties :=
  Build_BasicProperties
    (Some "application/json")
    (Some (if durable args then 2 else 1))
    (Some "rabbitmq.producer")
    (Some [("producer_id", JStr (producer_id args)); ("host", JStr hostname)])
    None None.

Definition initial (args : Namespace) (hostname : string) : world locals :=
  World (Build_locals (initial_props args hostname) 0 0) [].

Section Run.

(** [str(uuid.uuid4())] at its k-th call, [int(time.time())] at its k-th
    call, [json.dumps(obj).encode("utf-8")], and the environment's
    faults. *)
Variable uuid4 : nat → string.
Variable time_time : nat → Z.
Variable dumps : json → bytes.
Variable fault : trace → effect → option exn.

(** Line 74: the record that becomes the body. *)
Definition payload (args : Namespace) (i : Z) : json :=
  JObj [("n", JInt i); ("text", JStr (text args));
        ("sent_by", JStr (producer_id args))].

(** Line 75. *)
Definition fresh_message_id : M (world locals) unit :=
  k ← get_var uuid_draws;
  set_var (λ v,
    Build_locals
      (Build_BasicProperties (content_type (props v)) (delivery_mode (props v))
         (app_id (props v)) (headers (props v)) (Some (uuid4 k))
         (timestamp (props v)))
      (S k) (clock_reads v)).

(** Line 76. *)
Definition stamp : M (world locals) unit :=
  k ← get_var clock_reads;
  set_var (λ v,
    Build_locals
      (Build_BasicProperties (content_type (props v)) (delivery_mode (props v))
         (app_id (props v)) (headers (props v)) (message_id (props v))
         (Some (time_time k)))
      (uuid_draws v) (S k)).

(** Lines 73-80: the body of the loop. *)
Definition publish_one (args : Namespace) (ch : channel) (i : Z)
    : M (world locals) unit :=
  let body := dumps (payload args i) in
  fresh_message_id ;;
  stamp ;;
  p ← get_var props;
  perform fault
    (BasicPublish ch (exchange args) (routing_key args) body p) ;;
  r ← py_mod i (progress_every args);
  when (r =? 0) (perform fault (Print (Published i (count args)))).

(** Lines 72-80. *)
Definition publish_all (args : Namespace) (ch : channel)
    : M (world locals) unit :=
  for_each (range 1 (count args + 1)) (publish_one args ch).

End Run.

End Producer.

(** ** Reading traces and broker states *)

(** The handle of a delivery: the channel that delivered it and its tag. *)
Definition handle (d : delivery) : channel * Z :=
  (ch_cb d, delivery_tag (method d)).

(** The handle a call settles, if it is an acknowledgement or a negative
    acknowledgement. *)
Definition settled (c : effect * option exn) : option (channel * Z) :=
  match c.1 with
  | BasicAck ch tag => Some (ch, tag)
  | BasicNack ch tag _ => Some (ch, tag)
  | _ => None
  end.

(** The handles that [t] acknowledges or negatively acknowledges, whether
    the call returned or not, in order. *)
Definition settlements (t : trace) : list (channel * Z) := omap settled t.

(** The handles whose acknowledgement returned. *)
Definition acked (t : trace) : list (channel * Z) :=
  omap (λ c : effect * option exn,
          match c with
          | (BasicAck ch tag, None) => Some (ch, tag)
          | _ => None
          end) t.

Definition is_nack (e : effect) : bool :=
  match e with
  | BasicNack _ _ _ => true
  | _ => false
  end.

Definition is_stop (e : effect) : bool :=
  match e with
  | StopConsuming _ => true
  | _ => false
  end.

(** Every acknowledgement in [t] stands directly after a display that
    returned. *)
Definition acks_follow_display (t : trace) : Prop :=
  ∀ (i : nat) ch tag r, t !! i = Some (BasicAck ch tag, r) →
    ∃ (j : nat) l, i = S j ∧ t !! j = Some (Print l, None).

(** What [Consumer.decode] returns, as a function of the body. *)
Definition decoded (json_loads : bytes → option json)
    (decode_ignore : bytes → string) (b : bytes) : json * json :=
  match json_loads b with
  | Some (JObj items) => (dict_get "text" items, dict_get "n" items)
  | _ => (JStr (decode_ignore b), JStr "?")
  end.

(** The display call of a handler for the [c]-th delivery. *)
Definition shown (json_loads : bytes → option json)
    (decode_ignore : bytes → string) (args : Consumer.Namespace) (c : Z)
    (d : delivery) : effect :=
  Print (Got (Consumer.name args) c (Consumer.msg_id_of (props d))
           (Consumer.producer_of (props d))
           (decoded json_loads decode_ignore (body d)).2
           (decoded json_loads decode_ignore (body d)).1).

(** Body and properties of every publish call of [t], in order. *)
Definition publications (t : trace) : list (bytes * BasicProperties) :=
  omap (λ c : effect * option exn,
          match c.1 with
          | BasicPublish _ _ _ b p => Some (b, p)
          | _ => None
          end) t.

(** The lines that [t] prints, in order. *)
Definition printed (t : trace) : list line :=
  omap (λ c : effect * option exn,
          match c.1 with
          | Print l => Some l
          | _ => None
          end) t.

Definition with_id_and_time (p : BasicProperties) (id : string) (ts : Z)
    : BasicProperties :=
  Build_BasicProperties (content_type p) (delivery_mode p) (app_id p)
    (headers p) (Some id) (Some ts).

(** The queue arguments that both programs build. *)
Definition queue_arguments (lazy : bool) : gmap string string :=
  if lazy then <[ "x-queue-mode" := "lazy" ]> {[ "x-queue-type" := "classic" ]}
  else {[ "x-queue-type" := "classic" ]}.

(** The calls of [Producer.declare_topology], in order. *)
Definition topology_calls (ch : channel)
    (exchange work_queue audit_queue routing_key : string)
    (durable lazy : bool) : list effect :=
  [ExchangeDeclare ch exchange "direct" true;
   QueueDeclare ch work_queue false durable (queue_arguments lazy);
   QueueBind ch work_queue exchange routing_key] ++
  (if str_truthy audit_queue
   then [QueueDeclare ch audit_queue false durable (queue_arguments lazy);
         QueueBind ch audit_queue exchange routing_key]
   else []).

(** An entity is absent or already has the configuration [cfg]. *)
Definition fits {A} (o : option A) (cfg : A) : Prop :=
  o = None ∨ o = Some cfg.

(** The broker holds nothing that conflicts with the producer's topology. *)
Definition compatible (b : link) (exchange work_queue audit_queue : string)
    (durable lazy : bool) : Prop :=
  fits (exchanges b !! exchange) (Build_exchange_cfg "direct" true) ∧
  fits (queues b !! work_queue)
       (Build_queue_cfg durable (queue_arguments lazy)) ∧
  (str_truthy audit_queue = true →
   fits (queues b !! audit_queue)
        (Build_queue_cfg durable (queue_arguments lazy))).

(** Whatever [b] holds, [b'] holds unchanged. *)
Definition preserved (b b' : link) : Prop :=
  exchanges b ⊆ exchanges b' ∧ queues b ⊆ queues b' ∧
  bindings b ⊆ bindings b'.

(** The broker state after [Producer.declare_topology] went through. *)
Definition declared (b : link)
    (exchange work_queue audit_queue routing_key : string)
    (durable lazy : bool) : link :=
  let cfg := Build_queue_cfg durable (queue_arguments lazy) in
  Link (<[exchange := Build_exchange_cfg "direct" true]> (exchanges b))
       (if str_truthy audit_queue
        then <[audit_queue := cfg]> (<[work_queue := cfg]> (queues b))
        else <[work_queue := cfg]> (queues b))
       (if str_truthy audit_queue
        then bindings b ∪ {[(work_queue, exchange, routing_key)]}
                        ∪ {[(audit_queue, exchange, routing_key)]}
        else bindings b ∪ {[(work_queue, exchange, routing_key)]})
       (open_channels b) (next_channel b).

(** ** The specification's wording, for comparison *)

(** Every connect of [t] passes a heartbeat interval and a
    blocked-connection timeout. *)
Definition connects_with_liveness (t : trace) : Prop :=
  ∀ p r, (Connect p, r) ∈ t →
    is_Some (heartbeat p) ∧ is_Some (blocked_connection_timeout p).

(** A bootstrap of [queue] as the specification describes it: the first call
    is a passive declaration of the queue; a fresh channel is opened exactly
    when that fails with NotFound, and then exchange, queue and binding are
    declared. *)
Definition bootstraps_as_specified (queue : string) (t : trace) : Prop :=
  ∃ ch r rest,
    t = (QueueDeclare ch queue true false ∅, r) :: rest ∧
    (r = Some (ChannelClosedByBroker 404) ↔ (Channel, None) ∈ rest) ∧
    (r = Some (ChannelClosedByBroker 404) →
     (∃ ch' x ty d, (ExchangeDeclare ch' x ty d, None) ∈ rest) ∧
     (∃ ch' d args, (QueueDeclare ch' queue false d args, None) ∈ rest) ∧
     (∃ ch' x rk, (QueueBind ch' queue x rk, None) ∈ rest)).

(** ** Sample inputs *)

Module Sample.

(** Before the connection is made: no channel, nothing declared. *)
Definition unconnected : world link := World (Link ∅ ∅ ∅ ∅ 1%nat) [].

(** A connection with channel 1 open, to a broker that holds nothing. *)
Definition fresh_link : world link :=
  World (Link ∅ ∅ ∅ {[1%nat]} 2%nat) [].

(** A stand-in for [json.loads], right on the bodies used below: it reads
    the empty object and rejects the two texts, which are not JSON. *)
Definition json_loads (b : bytes) : option json :=
  match b with
  | [Byte.x7b; Byte.x7d] => Some (JObj [])
  | _ => None
  end.

(** The bodies used below are valid UTF-8, so nothing is dropped. *)
Definition decode_ignore (b : bytes) : string := String.string_of_list_byte b.

Definition worker : Consumer.Namespace := Consumer.Build_Namespace "Worker" None.

(** Two deliveries on channel 1, with tags 1 and 2, without properties;
    neither body is JSON, and the first holds a character outside ASCII. *)
Definition first : delivery :=
  Build_delivery 1%nat (Build_Deliver 1 (Some 1%nat)) None
    (String.list_byte_of_string "café").

Definition second : delivery :=
  Build_delivery 1%nat (Build_Deliver 2 (Some 1%nat)) None
    (String.list_byte_of_string "world").

(** Standard output cannot encode the message lines. *)
Definition display_fails : trace → effect → option exn :=
  λ _ e, match e with
         | Print (Got _ _ _ _ _ _) => Some UnicodeEncodeError
         | _ => None
         end.

(** The channel is gone when the handler settles the delivery. *)
Definition settle_fails : trace → effect → option exn :=
  λ _ e, match e with
         | BasicAck _ _ | BasicNack _ _ _ => Some StreamLostError
         | _ => None
         end.

(** An identifier source without repetition, a clock, and a serialiser
    that writes the sequence number only. *)
Definition uuid4 (k : nat) : string := "id-" +:+ pretty k.

Definition time_time (k : nat) : Z := 1700000000 + Z.of_nat k.

Definition dumps (j : json) : bytes :=
  match j with
  | JObj (("n", JInt i) :: _) => String.list_byte_of_string (pretty i)
  | _ => []
  end.

(** Three messages with the default cadence. *)
Definition three : Producer.Namespace :=
  Producer.Build_Namespace "direct.exchange" "work" 3 "Hello World" false
    10000 "alice".

End Sample.

(** ** Further readings of traces *)

(** What the [j]-th publish of a loop carries when the loop started with the
    properties [p0], after [d0] identifiers were drawn and [c0] clock
    readings made. *)
Definition envelope (uuid4 : nat → string) (time_time : nat → Z)
    (dumps : json → bytes) (args : Producer.Namespace)
    (p0 : BasicProperties) (d0 c0 : nat) (j : nat) (i : Z)
    : bytes * BasicProperties :=
  (dumps (Producer.payload args i),
   with_id_and_time p0 (uuid4 (d0 + j)%nat) (time_time (c0 + j)%nat)).


(** The calls of the terminal consumer's loop: a message line, an
    acknowledgement, or the request to stop. *)
Definition loop_call (e : effect) : bool :=
  match e with
  | Print (Got _ _ _ _ _ _) => true
  | BasicAck _ _ => true
  | StopConsuming _ => true
  | _ => false
  end.

(** The two calls of the terminal consumer's handler for the delivery [d]
    that is the [j]-th (from 0) after [c] were counted, when both return:
    the message line, then the acknowledgement on the delivering channel. *)
Definition handled (json_loads : bytes → option json)
    (decode_ignore : bytes → string) (args : Consumer.Namespace) (c : Z)
    (j : nat) (d : delivery) : trace :=
  [(shown json_loads decode_ignore args (c + 1 + Z.of_nat j) d, None);
   (BasicAck (ch_cb d) (delivery_tag (method d)), None)].


(** ** The start of the two programs *)

Module Main.

(** consumer.py, lines 51-54: connect, then make sure the queue exists. *)
Definition consumer_start (fault : trace → effect → option exn)
    (host vhost username password conn_name : string)
    (queue : string) (lazy : bool) : M (world link) channel :=
  ch ← Consumer.open_channel fault host vhost username password conn_name;
  Consumer.ensure_queue ch queue lazy.

(** producer.py, lines 52-55: connect, then declare the topology. *)
Definition producer_start (fault : trace → effect → option exn)
    (host vhost username password conn_name : string)
    (exchange queue audit_queue routing_key : string) (durable lazy : bool)
    : M (world link) unit :=
  ch ← Producer.open_channel fault host vhost username password conn_name;
  Producer.declare_topology ch exchange queue audit_queue routing_key
    durable lazy.

End Main.

(** ** Further sample inputs *)

Module Demo.

(** A stand-in for [json.loads] that reads back the three bodies that
    [Sample.dumps] writes for [Sample.three]. *)
Definition loads (b : bytes) : option json :=
  match b with
  | [Byte.x31] => Some (Producer.payload Sample.three 1)
  | [Byte.x32] => Some (Producer.payload Sample.three 2)
  | [Byte.x33] => Some (Producer.payload Sample.three 3)
  | _ => None
  end.

(** A stand-in for [json.loads], right on the two bodies used below: the
    digit 2 is the number 2, and the two braces are the empty object. *)
Definition json_loads (b : bytes) : option json :=
  match b with
  | [Byte.x32] => Some (JInt 2)
  | [Byte.x7b; Byte.x7d] => Some (JObj [])
  | _ => None
  end.

(** Two deliveries whose bodies are JSON: a number, and an object without
    fields. *)
Definition number : delivery :=
  Build_delivery 1%nat (Build_Deliver 1 None) None [Byte.x32].

Definition empty_object : delivery :=
  Build_delivery 1%nat (Build_Deliver 2 None) None [Byte.x7b; Byte.x7d].

(** The broker cannot be reached. *)
Definition unreachable : trace → effect → option exn :=
  λ _ c, match c with
         | Connect _ => Some AMQPConnectionError
         | _ => None
         end.

End Demo.


(** * Properties *)

Ltac run :=
  unfold mbind, mret, M_bind, M_ret, bind, ret, raise, try_except,
    try_finally, when, gets, modify, get_var, set_var, perform, emit, request
    in *;
  cbn -[respond] in *.

(** ** Small cases *)

Example range_three : range 1 (3 + 1) = [1; 2; 3].
Proof. reflexivity. Qed.

Example range_of_negative_count : range 1 (-2 + 1) = [].
Proof. reflexivity. Qed.

Example py_mod_negative_divisor : py_mod 5 (-3) tt = (tt, Ok (-1)).
Proof. reflexivity. Qed.

Example py_mod_zero_divisor :
  py_mod 1 0 tt = (tt, Raised ZeroDivisionError).
Proof. reflexivity. Qed.

Example threshold_reached :
  Consumer.enough (Consumer.Build_Namespace "Worker" (Some 2)) 2 = true ∧
  Consumer.enough (Consumer.Build_Namespace "Worker" (Some 2)) 1 = false ∧
  Consumer.enough (Consumer.Build_Namespace "Worker" (Some (-5))) 1 = true.
Proof. done. Qed.

Example stops_at_threshold :
  Consumer.consume Sample.json_loads Sample.decode_ignore no_fault
    (Consumer.Build_Namespace "Worker" (Some 1))
    [Sample.second; Sample.first] Consumer.initial
  = (World (Consumer.Build_locals 1 false)
       [(Print (Waiting "Worker"), None);
        (Print (Got "Worker" 1 JNull JNull (JStr "?") (JStr "world")), None);
        (BasicAck 1%nat 2, None);
        (StopConsuming 1%nat, None);
        (Print (ConsumerDone "Worker" 1), None);
        (ConnClose, None)],
     Ok tt).
Proof. reflexivity. Qed.

Example empty_object_has_no_fields :
  decoded Sample.json_loads Sample.decode_ignore [Byte.x7b; Byte.x7d]
  = (JNull, JNull).
Proof. reflexivity. Qed.

Example empty_user_name_is_refused :
  Producer.open_channel no_fault "localhost" "/" EmptyString "guest"
    "RabbitMQ Producer (demo)" Sample.unconnected
  = (Sample.unconnected, Raised TypeError).
Proof. reflexivity. Qed.

Example unreachable_broker_ends_the_start :
  Main.consumer_start Demo.unreachable "localhost" "/" "guest" "guest"
    "RabbitMQ Consumer Worker (demo)" "work.queue" false Sample.unconnected
  = (World (vars Sample.unconnected)
       [(Connect
           (Build_ConnectionParameters "localhost" "/"
              (Build_PlainCredentials "guest" "guest")
              "RabbitMQ Consumer Worker (demo)" (Some 600) (Some 300)),
         Some AMQPConnectionError)],
     Raised AMQPConnectionError).
Proof. reflexivity. Qed.

Example incompatible_queue_is_refused :
  (Producer.declare_topology 2%nat "direct.exchange" "work.queue" "" "work"
     false false
     (Consumer.ensure_queue 1%nat "work.queue" false Sample.fresh_link).1).2
  = Raised (ChannelClosedByBroker 406).
Proof. reflexivity. Qed.

(** ** Connecting *)

Section Connecting.

Variable fault : trace → effect → option exn.
Variables host vhost username password conn_name : string.
Variable w : world link.

Lemma consumer_open_channel :
  Consumer.open_channel fault host vhost username password conn_name w =
    if str_truthy username then
      let p :=
        Build_ConnectionParameters host vhost
          (Build_PlainCredentials username password) conn_name
          (Some 600) (Some 300) in
      match fault (log w) (Connect p) with
      | Some e => (World (vars w) (log w ++ [(Connect p, Some e)]), Raised e)
      | None =>
          (World (respond Channel (vars w)).1
             (log w ++ [(Connect p, None); (Channel, None)]),
           Ok (next_channel (vars w)))
      end
    else (w, Raised TypeError).
Proof.
  unfold Consumer.open_channel, connection_parameters, BlockingConnection,
    conn_channel.
  destruct (str_truthy username); run; [|done].
  destruct (fault (log w) _); cbn; [done|]. simpl.
  by rewrite <- app_assoc.
Qed.

Lemma producer_open_channel :
  Producer.open_channel fault host vhost username password conn_name w =
    if str_truthy username then
      let p :=
        Build_ConnectionParameters host vhost
          (Build_PlainCredentials username password) conn_name None None in
      match fault (log w) (Connect p) with
      | Some e => (World (vars w) (log w ++ [(Connect p, Some e)]), Raised e)
      | None =>
          (World (respond Channel (vars w)).1
             (log w ++ [(Connect p, None); (Channel, None)]),
           Ok (next_channel (vars w)))
      end
    else (w, Raised TypeError).
Proof.
  unfold Producer.open_channel, connection_parameters, BlockingConnection,
    conn_channel.
  destruct (str_truthy username); run; [|done].
  destruct (fault (log w) _); cbn; [done|]. simpl.
  by rewrite <- app_assoc.
Qed.

End Connecting.

(** C8, as stated, fails: the producer connects without a heartbeat interval
    and without a blocked-connection timeout. *)
Lemma producer_connects_without_liveness :
  ¬ connects_with_liveness
      (log (Producer.open_channel no_fault "localhost" "/" "guest" "guest"
              "RabbitMQ Producer (demo)" Sample.unconnected).1).
Proof.
  rewrite producer_open_channel. intros H.
  destruct (H _ None (list_elem_of_here _ _)) as [[z Hz] _].
  discriminate Hz.
Qed.

(** C8, amended: given a user name, the terminal consumer's [open_channel]
    makes one connect, with a heartbeat of 600 seconds and a
    blocked-connection timeout of 300 seconds, and the producer's
    [open_channel] makes one connect that passes neither, so the library's
    defaults apply; in both, a connect that fails ends the function with its
    exception and no channel is opened, and one that returns is followed by
    the opening of the channel that is returned.  With an empty user name
    neither function reaches the connect: the credentials are [None], which
    the library refuses with [TypeError]. *)
Theorem liveness_parameters_only_in_consumer
    (fault : trace → effect → option exn)
    (host vhost username password conn_name : string) (w : world link) :
  (str_truthy username = true →
   (∃ p rest,
      log (Consumer.open_channel fault host vhost username password
             conn_name w).1
        = log w ++ (Connect p, fault (log w) (Connect p)) :: rest ∧
      heartbeat p = Some 600 ∧ blocked_connection_timeout p = Some 300 ∧
      match fault (log w) (Connect p) with
      | Some e =>
          rest = [] ∧
          (Consumer.open_channel fault host vhost username password
             conn_name w).2 = Raised e
      | None =>
          rest = [(Channel, None)] ∧
          (Consumer.open_channel fault host vhost username password
             conn_name w).2 = Ok (next_channel (vars w))
      end) ∧
   (∃ p rest,
      log (Producer.open_channel fault host vhost username password
             conn_name w).1
        = log w ++ (Connect p, fault (log w) (Connect p)) :: rest ∧
      heartbeat p = None ∧ blocked_connection_timeout p = None ∧
      match fault (log w) (Connect p) with
      | Some e =>
          rest = [] ∧
          (Producer.open_channel fault host vhost username password
             conn_name w).2 = Raised e
      | None =>
          rest = [(Channel, None)] ∧
          (Producer.open_channel fault host vhost username password
             conn_name w).2 = Ok (next_channel (vars w))
      end)) ∧
  (str_truthy username = false →
   Consumer.open_channel fault host vhost username password conn_name w
     = (w, Raised TypeError) ∧
   Producer.open_channel fault host vhost username password conn_name w
     = (w, Raised TypeError)).
Proof.
  rewrite consumer_open_channel, producer_open_channel.
  split; intros ->; [|done]. cbv zeta.
  split.
  - exists (Build_ConnectionParameters host vhost
              (Build_PlainCredentials username password) conn_name
              (Some 600) (Some 300)).
    destruct (fault (log w) _); cbn [fst snd log]; eexists; by split.
  - exists (Build_ConnectionParameters host vhost
              (Build_PlainCredentials username password) conn_name
              None None).
    destruct (fault (log w) _); cbn [fst snd log]; eexists; by split.
Qed.

(** ** Topology bootstrap *)

Lemma queue_arguments_type lazy :
  queue_arguments lazy !! "x-queue-type" = Some "classic".
Proof. by destruct lazy. Qed.

Lemma queue_arguments_mode lazy :
  queue_arguments lazy !! "x-queue-mode" =
    if lazy then Some "lazy" else None.
Proof. by destruct lazy. Qed.

Lemma ensure_queue_present w ch q lazy cfg :
  ch ∈ open_channels (vars w) → queues (vars w) !! q = Some cfg →
  Consumer.ensure_queue ch q lazy w =
    (World (vars w) (log w ++ [(QueueDeclare ch q true false ∅, None)]),
     Ok ch).
Proof.
  intros Hopen Hq. unfold Consumer.ensure_queue, queue_declare. run. simpl.
  rewrite decide_True by done. by rewrite Hq.
Qed.

Lemma ensure_queue_absent w ch q lazy :
  ch ∈ open_channels (vars w) → queues (vars w) !! q = None →
  Consumer.ensure_queue ch q lazy w =
    (World
       (Link (exchanges (vars w))
          (<[q := Build_queue_cfg true (queue_arguments lazy)]>
             (queues (vars w)))
          (bindings (vars w))
          (open_channels (vars w) ∖ {[ch]} ∪ {[next_channel (vars w)]})
          (S (next_channel (vars w))))
       (log w ++
        [(QueueDeclare ch q true false ∅, Some (ChannelClosedByBroker 404));
         (Channel, None);
         (QueueDeclare (next_channel (vars w)) q false true
            (queue_arguments lazy), None)]),
     Ok (next_channel (vars w))).
Proof.
  intros Hopen Hq.
  unfold Consumer.ensure_queue, queue_declare, conn_channel. run. simpl.
  rewrite decide_True by done. rewrite Hq. simpl.
  rewrite decide_True by set_solver. rewrite Hq. simpl.
  rewrite <- !app_assoc. simpl. unfold queue_arguments. by destruct lazy.
Qed.

Lemma respond_exchange_declare b ch x ty d :
  ch ∈ open_channels b → fits (exchanges b !! x) (Build_exchange_cfg ty d) →
  respond (ExchangeDeclare ch x ty d) b =
    (Link (<[x := Build_exchange_cfg ty d]> (exchanges b)) (queues b)
       (bindings b) (open_channels b) (next_channel b), None).
Proof.
  intros Hopen [H|H]; simpl; rewrite decide_True by done; rewrite H; [done|].
  rewrite decide_True by done. rewrite insert_id by done. by destruct b.
Qed.

Lemma respond_queue_declare b ch q d args :
  ch ∈ open_channels b → fits (queues b !! q) (Build_queue_cfg d args) →
  respond (QueueDeclare ch q false d args) b =
    (Link (exchanges b) (<[q := Build_queue_cfg d args]> (queues b))
       (bindings b) (open_channels b) (next_channel b), None).
Proof.
  intros Hopen [H|H]; simpl; rewrite decide_True by done; rewrite H; [done|].
  rewrite decide_True by done. rewrite insert_id by done. by destruct b.
Qed.

Lemma respond_queue_bind b ch q x rk :
  ch ∈ open_channels b → is_Some (queues b !! q) →
  is_Some (exchanges b !! x) →
  respond (QueueBind ch q x rk) b =
    (Link (exchanges b) (queues b) (bindings b ∪ {[(q, x, rk)]})
       (open_channels b) (next_channel b), None).
Proof.
  intros Hopen [? Hq] [? Hx]; simpl. rewrite decide_True by done.
  by rewrite Hq, Hx.
Qed.

Section Fits.

Context {A : Type}.
Implicit Types (m : gmap string A) (k : string) (c : A).

Lemma fits_insert m k c : fits (m !! k) c → m ⊆ <[k := c]> m.
Proof.
  intros [H|H]; [by apply insert_subseteq|]. by rewrite insert_id.
Qed.

Lemma fits_insert_eq m k c : fits (<[k := c]> m !! k) c.
Proof. right. by rewrite lookup_insert_eq. Qed.

Lemma fits_insert_other m k k' c :
  fits (m !! k') c → fits (<[k := c]> m !! k') c.
Proof.
  intros H. destruct (decide (k = k')) as [->|]; [apply fits_insert_eq|].
  by rewrite lookup_insert_ne.
Qed.

End Fits.

Section DeclareTopology.

Variable ch : channel.
Variables x wq aq rk : string.
Variables durable lazy : bool.

Lemma declare_topology_compatible w :
  ch ∈ open_channels (vars w) → compatible (vars w) x wq aq durable lazy →
  Producer.declare_topology ch x wq aq rk durable lazy w =
    (World (declared (vars w) x wq aq rk durable lazy)
       (log w ++
        ((λ e, (e, None)) <$> topology_calls ch x wq aq rk durable lazy)),
     Ok tt).
Proof.
  intros Hopen (Hx & Hw & Ha).
  unfold Producer.declare_topology, exchange_declare, queue_declare,
    queue_bind.
  fold (queue_arguments lazy). run.
  rewrite respond_exchange_declare by done. cbn [vars log outcome].
  rewrite respond_queue_declare by done. cbn [vars log outcome].
  rewrite respond_queue_bind;
    cbn [vars log outcome open_channels queues exchanges];
    [|done|by rewrite lookup_insert_eq|by rewrite lookup_insert_eq].
  unfold topology_calls, declared.
  destruct (str_truthy aq); cbn [vars log outcome].
  - rewrite respond_queue_declare;
      cbn [vars log outcome open_channels queues exchanges];
      [|done|apply fits_insert_other; by apply Ha].
    rewrite respond_queue_bind;
      cbn [vars log outcome open_channels queues exchanges];
      [|done|by rewrite lookup_insert_eq|by rewrite lookup_insert_eq].
    by rewrite <- !app_assoc.
  - by rewrite <- !app_assoc.
Qed.

Lemma preserved_declared b :
  compatible b x wq aq durable lazy →
  preserved b (declared b x wq aq rk durable lazy).
Proof.
  intros (Hx & Hw & Ha). unfold preserved, declared; cbn.
  split; [by apply fits_insert|]. destruct (str_truthy aq); split.
  - etrans; [by apply fits_insert|]. apply fits_insert.
    apply fits_insert_other. by apply Ha.
  - set_solver.
  - by apply fits_insert.
  - set_solver.
Qed.

Lemma compatible_declared b :
  compatible (declared b x wq aq rk durable lazy) x wq aq durable lazy.
Proof.
  unfold compatible, declared; cbn. split; [apply fits_insert_eq|].
  destruct (str_truthy aq); split; try done.
  - apply fits_insert_other, fits_insert_eq.
  - intros _. apply fits_insert_eq.
  - apply fits_insert_eq.
Qed.

Lemma declared_idem b :
  declared (declared b x wq aq rk durable lazy) x wq aq rk durable lazy =
  declared b x wq aq rk durable lazy.
Proof.
  unfold declared; cbn. destruct (str_truthy aq); f_equal.
  - by rewrite insert_insert_eq.
  - apply map_eq. intros k. rewrite !lookup_insert.
    repeat case_decide; done.
  - set_solver.
  - by rewrite insert_insert_eq.
  - by rewrite insert_insert_eq.
  - set_solver.
Qed.

(** Whatever the broker answers, the producer issues its declarations in
    the one order, stops at the first that fails, and never probes. *)
Lemma declare_topology_calls w :
  ∃ t,
    log (Producer.declare_topology ch x wq aq rk durable lazy w).1
      = log w ++ t ∧
    t.*1 `prefix_of` topology_calls ch x wq aq rk durable lazy ∧
    ((Producer.declare_topology ch x wq aq rk durable lazy w).2 = Ok tt →
     t = (λ e, (e, None)) <$> topology_calls ch x wq aq rk durable lazy).
Proof.
  unfold Producer.declare_topology, exchange_declare, queue_declare,
    queue_bind, topology_calls.
  fold (queue_arguments lazy). run.
  destruct (respond _ (vars w)) as [b1 [e|]]; cbn -[respond].
  { eexists [_]. split; [done|]. split; [|done]. by eexists. }
  destruct (respond _ b1) as [b2 [e|]]; cbn -[respond].
  { eexists [_; _]. split; [by rewrite <- app_assoc|]. split; [|done].
    by eexists. }
  destruct (respond _ b2) as [b3 [e|]]; cbn -[respond].
  { eexists [_; _; _]. split; [by rewrite <- !app_assoc|].
    split; [|done]. by eexists. }
  destruct (str_truthy aq); cbn -[respond].
  2:{ eexists [_; _; _]. split; [by rewrite <- !app_assoc|]. by split. }
  destruct (respond _ b3) as [b4 [e|]]; cbn -[respond].
  { eexists [_; _; _; _]. split; [by rewrite <- !app_assoc|].
    split; [|done]. by eexists [_]. }
  destruct (respond _ b4) as [b5 [e|]]; cbn -[respond].
  { eexists [_; _; _; _; _]. split; [by rewrite <- !app_assoc|]. by split. }
  eexists [_; _; _; _; _]. split; [by rewrite <- !app_assoc|]. by split.
Qed.

(** A call that is refused is the last call: the producer makes no further
    declaration after it and ends with its exception. *)
Lemma declare_topology_stops w :
  ∃ t,
    log (Producer.declare_topology ch x wq aq rk durable lazy w).1
      = log w ++ t ∧
    (∀ (i : nat) call e, t !! i = Some (call, Some e) →
       S i = length t ∧
       (Producer.declare_topology ch x wq aq rk durable lazy w).2
         = Raised e) ∧
    (∀ e,
       (Producer.declare_topology ch x wq aq rk durable lazy w).2
         = Raised e →
       ∃ call, last t = Some (call, Some e)).
Proof.
  unfold Producer.declare_topology, exchange_declare, queue_declare,
    queue_bind.
  fold (queue_arguments lazy). run.
  destruct (respond _ (vars w)) as [b1 [e|]]; cbn -[respond].
  { eexists [_]. split; [done|]. split.
    - intros [|i] ?? Hi; by simplify_eq/=.
    - intros ? [= <-]. by eexists. }
  destruct (respond _ b1) as [b2 [e|]]; cbn -[respond].
  { eexists [_; _]. split; [by rewrite <- app_assoc|]. split.
    - intros [|[|i]] ?? Hi; by simplify_eq/=.
    - intros ? [= <-]. by eexists. }
  destruct (respond _ b2) as [b3 [e|]]; cbn -[respond].
  { eexists [_; _; _]. split; [by rewrite <- !app_assoc|]. split.
    - intros [|[|[|i]]] ?? Hi; by simplify_eq/=.
    - intros ? [= <-]. by eexists. }
  destruct (str_truthy aq); cbn -[respond].
  2:{ eexists [_; _; _]. split; [by rewrite <- !app_assoc|]. split.
      - intros [|[|[|i]]] ?? Hi; by simplify_eq/=.
      - by intros ? [=]. }
  destruct (respond _ b3) as [b4 [e|]]; cbn -[respond].
  { eexists [_; _; _; _]. split; [by rewrite <- !app_assoc|]. split.
    - intros [|[|[|[|i]]]] ?? Hi; by simplify_eq/=.
    - intros ? [= <-]. by eexists. }
  destruct (respond _ b4) as [b5 [e|]]; cbn -[respond].
  { eexists [_; _; _; _; _]. split; [by rewrite <- !app_assoc|]. split.
    - intros [|[|[|[|[|i]]]]] ?? Hi; by simplify_eq/=.
    - intros ? [= <-]. by eexists. }
  eexists [_; _; _; _; _]. split; [by rewrite <- !app_assoc|]. split.
  - intros [|[|[|[|[|i]]]]] ?? Hi; by simplify_eq/=.
  - by intros ? [=].
Qed.

End DeclareTopology.

(** C3, as stated, fails on both programs: on a broker without the queue the
    consumer's [ensure_queue] declares the queue alone, neither exchange nor
    binding, and the producer's [declare_topology] does not start with a
    passive declaration. *)
Lemma bootstrap_not_as_specified :
  ¬ bootstraps_as_specified "work.queue"
      (log (Consumer.ensure_queue 1%nat "work.queue" false
              Sample.fresh_link).1) ∧
  ¬ bootstraps_as_specified "work.queue"
      (log (Producer.declare_topology 1%nat "direct.exchange" "work.queue"
              "audit.queue" "work" false false Sample.fresh_link).1).
Proof.
  split.
  - rewrite ensure_queue_absent by (cbn; set_solver).
    intros (ch & r & rest & Heq & _ & H). cbn in Heq. simplify_eq.
    destruct H as [(ch' & x & ty & d & Hin) _]; [done|].
    repeat (apply elem_of_cons in Hin as [Hin|Hin]; [discriminate Hin|]).
    by apply elem_of_nil in Hin.
  - rewrite declare_topology_compatible;
      [|cbn; set_solver|by repeat split; left].
    intros (ch & r & rest & Heq & _). cbn in Heq. discriminate Heq.
Qed.

(** C3, amended: on a usable channel the consumer's [ensure_queue] first
    attempts a passive declaration of the queue; exactly when that is
    answered with NotFound it opens a fresh channel and declares the queue
    alone, durable, with [x-queue-type=classic] and with [x-queue-mode=lazy]
    exactly when [lazy] is set, and it returns the channel to use
    afterwards.  Exchange and bindings are declared by the producer's
    [declare_topology], which probes nothing: it declares the exchange, the
    queue and its binding, and the audit queue and its binding if one is
    named, with the same arguments, stops at the first declaration that is
    refused, and returns no channel. *)
Theorem probe_then_create (w : world link) (ch : channel)
    (exchange work_queue audit_queue routing_key : string)
    (durable lazy : bool)
    (Hopen : ch ∈ open_channels (vars w)) :
  (∀ cfg, queues (vars w) !! work_queue = Some cfg →
     Consumer.ensure_queue ch work_queue lazy w =
       (World (vars w)
          (log w ++ [(QueueDeclare ch work_queue true false ∅, None)]),
        Ok ch)) ∧
  (queues (vars w) !! work_queue = None →
     ∃ b,
       Consumer.ensure_queue ch work_queue lazy w =
         (World b
            (log w ++
             [(QueueDeclare ch work_queue true false ∅,
               Some (ChannelClosedByBroker 404));
              (Channel, None);
              (QueueDeclare (next_channel (vars w)) work_queue false true
                 (queue_arguments lazy), None)]),
          Ok (next_channel (vars w))) ∧
       next_channel (vars w) ∈ open_channels b ∧
       queues b !! work_queue
         = Some (Build_queue_cfg true (queue_arguments lazy))) ∧
  (queue_arguments lazy !! "x-queue-type" = Some "classic" ∧
   (queue_arguments lazy !! "x-queue-mode" = Some "lazy" ↔ lazy = true) ∧
   dom (queue_arguments lazy) ⊆ {[ "x-queue-type"; "x-queue-mode" ]}) ∧
  (∃ t,
     log (Producer.declare_topology ch exchange work_queue audit_queue
            routing_key durable lazy w).1 = log w ++ t ∧
     t.*1 `prefix_of` topology_calls ch exchange work_queue audit_queue
                        routing_key durable lazy ∧
     ((Producer.declare_topology ch exchange work_queue audit_queue
         routing_key durable lazy w).2 = Ok tt →
      t = (λ e, (e, None)) <$> topology_calls ch exchange work_queue
                                 audit_queue routing_key durable lazy) ∧
     (∀ (i : nat) call e, t !! i = Some (call, Some e) →
        S i = length t ∧
        (Producer.declare_topology ch exchange work_queue audit_queue
           routing_key durable lazy w).2 = Raised e) ∧
     (∀ e,
        (Producer.declare_topology ch exchange work_queue audit_queue
           routing_key durable lazy w).2 = Raised e →
        ∃ call, last t = Some (call, Some e))).
Proof.
  split; [intros cfg Hq; by eapply ensure_queue_present|].
  split.
  { intros Hq. eexists. split; [by apply ensure_queue_absent|].
    cbn. split; [set_solver|by rewrite lookup_insert_eq]. }
  split.
  { split; [apply queue_arguments_type|].
    split; [rewrite queue_arguments_mode; destruct lazy; naive_solver|].
    unfold queue_arguments. destruct lazy; set_solver. }
  destruct (declare_topology_calls ch exchange work_queue audit_queue
              routing_key durable lazy w) as (t & Hlog & Hpre & Hok).
  destruct (declare_topology_stops ch exchange work_queue audit_queue
              routing_key durable lazy w) as (t' & Hlog' & Hlast & Hraised).
  assert (t' = t) as -> by (rewrite Hlog in Hlog'; by simplify_list_eq).
  by exists t.
Qed.

Lemma probe_then_create_witness :
  1%nat ∈ open_channels (vars Sample.fresh_link) ∧
  (∀ cfg, queues (vars Sample.fresh_link) !! "work.queue" = Some cfg →
     Consumer.ensure_queue 1%nat "work.queue" true Sample.fresh_link =
       (World (vars Sample.fresh_link)
          (log Sample.fresh_link ++
           [(QueueDeclare 1%nat "work.queue" true false ∅, None)]),
        Ok 1%nat)) ∧
  (queues (vars Sample.fresh_link) !! "work.queue" = None →
     ∃ b,
       Consumer.ensure_queue 1%nat "work.queue" true Sample.fresh_link =
         (World b
            (log Sample.fresh_link ++
             [(QueueDeclare 1%nat "work.queue" true false ∅,
               Some (ChannelClosedByBroker 404));
              (Channel, None);
              (QueueDeclare (next_channel (vars Sample.fresh_link))
                 "work.queue" false true (queue_arguments true), None)]),
          Ok (next_channel (vars Sample.fresh_link))) ∧
       next_channel (vars Sample.fresh_link) ∈ open_channels b ∧
       queues b !! "work.queue"
         = Some (Build_queue_cfg true (queue_arguments true))) ∧
  (queue_arguments true !! "x-queue-type" = Some "classic" ∧
   (queue_arguments true !! "x-queue-mode" = Some "lazy" ↔ true = true) ∧
   dom (queue_arguments true) ⊆ {[ "x-queue-type"; "x-queue-mode" ]}) ∧
  (∃ t,
     log (Producer.declare_topology 1%nat "direct.exchange" "work.queue"
            "audit.queue" "work" false true Sample.fresh_link).1
       = log Sample.fresh_link ++ t ∧
     t.*1 `prefix_of` topology_calls 1%nat "direct.exchange" "work.queue"
                        "audit.queue" "work" false true ∧
     ((Producer.declare_topology 1%nat "direct.exchange" "work.queue"
         "audit.queue" "work" false true Sample.fresh_link).2 = Ok tt →
      t = (λ e, (e, None)) <$> topology_calls 1%nat "direct.exchange"
                                 "work.queue" "audit.queue" "work" false
                                 true) ∧
     (∀ (i : nat) call e, t !! i = Some (call, Some e) →
        S i = length t ∧
        (Producer.declare_topology 1%nat "direct.exchange" "work.queue"
           "audit.queue" "work" false true Sample.fresh_link).2 = Raised e) ∧
     (∀ e,
        (Producer.declare_topology 1%nat "direct.exchange" "work.queue"
           "audit.queue" "work" false true Sample.fresh_link).2 = Raised e →
        ∃ call, last t = Some (call, Some e))).
Proof.
  assert (H : 1%nat ∈ open_channels (vars Sample.fresh_link))
    by (apply (bool_decide_unpack _); vm_compute; exact I).
  split; [exact H|].
  exact (probe_then_create Sample.fresh_link 1%nat "direct.exchange"
           "work.queue" "audit.queue" "work" false true H).
Defined.

(** C4: on a usable channel, running the bootstrap twice in succession
    raises no error either time, yields a usable channel each time, leaves
    what the broker already held as it was, and the second run does not
    change the broker state at all.  This holds for the consumer's
    [ensure_queue] on any broker state, the second run being given the
    channel the first returned, and for the producer's [declare_topology] on
    a broker that holds nothing in conflict with the topology. *)
Theorem bootstrap_twice_is_idempotent (w : world link) (ch : channel)
    (exchange work_queue audit_queue routing_key : string)
    (durable lazy : bool)
    (Hopen : ch ∈ open_channels (vars w)) :
  (∃ w1 ch1 w2,
      Consumer.ensure_queue ch work_queue lazy w = (w1, Ok ch1) ∧
      Consumer.ensure_queue ch1 work_queue lazy w1 = (w2, Ok ch1) ∧
      vars w2 = vars w1 ∧ ch1 ∈ open_channels (vars w1) ∧
      preserved (vars w) (vars w1)) ∧
  (compatible (vars w) exchange work_queue audit_queue durable lazy →
   ∃ w1 w2,
      Producer.declare_topology ch exchange work_queue audit_queue
        routing_key durable lazy w = (w1, Ok tt) ∧
      Producer.declare_topology ch exchange work_queue audit_queue
        routing_key durable lazy w1 = (w2, Ok tt) ∧
      vars w2 = vars w1 ∧ ch ∈ open_channels (vars w1) ∧
      preserved (vars w) (vars w1)).
Proof.
  split.
  - destruct (queues (vars w) !! work_queue) as [cfg|] eqn:Hq.
    + eexists _, ch, _. split; [by eapply ensure_queue_present|].
      split; [by eapply ensure_queue_present|]. by repeat split.
    + eexists _, _, _. split; [by apply ensure_queue_absent|].
      split.
      { apply (ensure_queue_present _ _ _ _
                 (Build_queue_cfg true (queue_arguments lazy))); cbn;
          [set_solver|by rewrite lookup_insert_eq]. }
      cbn. repeat split; try done; [set_solver|]. by apply insert_subseteq.
  - intros Hcompat.
    eexists _, _. split; [by apply declare_topology_compatible|].
    split; [apply declare_topology_compatible;
            [done|apply compatible_declared]|].
    cbn. split; [apply declared_idem|]. split; [done|].
    by apply preserved_declared.
Qed.

Lemma bootstrap_twice_is_idempotent_witness :
  1%nat ∈ open_channels (vars Sample.fresh_link) ∧
  compatible (vars Sample.fresh_link) "direct.exchange" "work.queue"
    "audit.queue" false true ∧
  (∃ w1 ch1 w2,
      Consumer.ensure_queue 1%nat "work.queue" true Sample.fresh_link
        = (w1, Ok ch1) ∧
      Consumer.ensure_queue ch1 "work.queue" true w1 = (w2, Ok ch1) ∧
      vars w2 = vars w1 ∧ ch1 ∈ open_channels (vars w1) ∧
      preserved (vars Sample.fresh_link) (vars w1)) ∧
  (∃ w1 w2,
      Producer.declare_topology 1%nat "direct.exchange" "work.queue"
        "audit.queue" "work" false true Sample.fresh_link = (w1, Ok tt) ∧
      Producer.declare_topology 1%nat "direct.exchange" "work.queue"
        "audit.queue" "work" false true w1 = (w2, Ok tt) ∧
      vars w2 = vars w1 ∧ 1%nat ∈ open_channels (vars w1) ∧
      preserved (vars Sample.fresh_link) (vars w1)).
Proof.
  assert (H : 1%nat ∈ open_channels (vars Sample.fresh_link))
    by (apply (bool_decide_unpack _); vm_compute; exact I).
  assert (C : compatible (vars Sample.fresh_link) "direct.exchange"
                "work.queue" "audit.queue" false true)
    by (split; [left; reflexivity|]; split; [left; reflexivity|];
        intros _; left; reflexivity).
  split; [exact H|]. split; [exact C|].
  destruct (bootstrap_twice_is_idempotent Sample.fresh_link 1%nat
              "direct.exchange" "work.queue" "audit.queue" "work" false true
              H) as [Hensure Hdeclare].
  split; [exact Hensure|exact (Hdeclare C)].
Defined.

(** ** The message handler of the terminal consumer *)

Section Handler.

Import Consumer.

Variable json_loads : bytes → option json.
Variable decode_ignore : bytes → string.

Lemma decode_decoded b w :
  decode json_loads decode_ignore b w =
    (w, Ok (decoded json_loads decode_ignore b)).
Proof.
  unfold decode, decoded, loads, get. run.
  destruct (json_loads b) as [[]|]; reflexivity.
Qed.

Lemma decoded_invalid b :
  json_loads b = None →
  decoded json_loads decode_ignore b = (JStr (decode_ignore b), JStr "?").
Proof. unfold decoded. by intros ->. Qed.

Section Faults.

Variable fault : trace → effect → option exn.

(** The handler, call by call. *)
Lemma on_msg_unfold args d w :
  on_msg json_loads decode_ignore fault args d w =
    let c := count (vars w) + 1 in
    let g := shown json_loads decode_ignore args c d in
    let a := BasicAck (ch_cb d) (delivery_tag (method d)) in
    let s := StopConsuming (ch_cb d) in
    let v := Build_locals c (consuming (vars w)) in
    match fault (log w) g with
    | Some e => (World v (log w ++ [(g, Some e)]), Raised e)
    | None =>
        match fault (log w ++ [(g, None)]) a with
        | Some e =>
            (World v (log w ++ [(g, None); (a, Some e)]), Raised e)
        | None =>
            if enough args c then
              match fault (log w ++ [(g, None); (a, None)]) s with
              | Some e =>
                  (World v
                     (log w ++ [(g, None); (a, None); (s, Some e)]),
                   Raised e)
              | None =>
                  (World (Build_locals c false)
                     (log w ++ [(g, None); (a, None); (s, None)]),
                   Ok tt)
              end
            else (World v (log w ++ [(g, None); (a, None)]), Ok tt)
        end
    end.
Proof.
  unfold on_msg, stop_consuming. run. rewrite decode_decoded. cbn.
  fold (shown json_loads decode_ignore args (count (vars w) + 1) d).
  destruct (fault (log w) _) as [e|]; cbn; [done|].
  rewrite <- !app_assoc. cbn.
  destruct (fault (log w ++ [_]) _) as [e|]; cbn; [done|].
  destruct (enough args _); cbn; [|done].
  rewrite <- !app_assoc. cbn.
  destruct (fault (log w ++ [_; _]) _) as [e|]; cbn; done.
Qed.

(** What the handler raises, a call raised. *)
Lemma on_msg_raises_from_call args d w e :
  (on_msg json_loads decode_ignore fault args d w).2 = Raised e →
  ∃ c, last (log (on_msg json_loads decode_ignore fault args d w).1)
         = Some (c, Some e).
Proof.
  rewrite on_msg_unfold. cbv zeta.
  repeat (match goal with
          | |- context [match ?x with _ => _ end] => destruct x
          end);
    cbn; intros; simplify_eq; rewrite last_snoc || rewrite last_app;
    eauto.
Qed.

Lemma start_consuming_cons args d rest w :
  start_consuming consuming
    (on_msg json_loads decode_ignore fault args) (d :: rest) w =
    match on_msg json_loads decode_ignore fault args d w with
    | (w', Ok _) =>
        if consuming (vars w')
        then start_consuming consuming
               (on_msg json_loads decode_ignore fault args) rest w'
        else (w', Ok tt)
    | (w', Raised e) => (w', Raised e)
    end.
Proof.
  cbn [start_consuming]. run.
  destruct (on_msg _ _ _ _ _ _) as [w' [[]|e]]; [|done].
  by destruct (consuming (vars w')).
Qed.

Lemma acks_follow_display_app (b t : trace) :
  acks_follow_display b → acks_follow_display t →
  acks_follow_display (b ++ t).
Proof.
  intros Hb Ht i ch tag r Hi.
  apply lookup_app_Some in Hi as [Hi|[Hlen Hi]].
  - destruct (Hb _ _ _ _ Hi) as (j & l & -> & Hj).
    exists j, l. split; [done|]. by apply lookup_app_l_Some.
  - destruct (Ht _ _ _ _ Hi) as (j & l & Hij & Hj).
    exists (length b + j)%nat, l. split; [lia|].
    rewrite lookup_app_r by lia.
    by replace (length b + j - length b)%nat with j by lia.
Qed.

Lemma acks_follow_display_1 l o :
  acks_follow_display [(Print l, o)].
Proof. intros [|[|i]] ch tag r Hi; simplify_eq/=. Qed.

Lemma acks_follow_display_2 l ch tag r :
  acks_follow_display [(Print l, None); (BasicAck ch tag, r)].
Proof.
  intros [|[|[|i]]] c t r' Hi; simplify_eq/=. by exists 0%nat, l.
Qed.

Lemma acks_follow_display_3 l ch tag r ch' r' :
  acks_follow_display
    [(Print l, None); (BasicAck ch tag, r); (StopConsuming ch', r')].
Proof.
  intros [|[|[|[|i]]]] c t r'' Hi; simplify_eq/=. by exists 0%nat, l.
Qed.

(** The loop under any faults: the deliveries are settled in order, one
    call each, up to where the loop ends; no call is a negative
    acknowledgement; every acknowledgement follows its display. *)
Lemma start_consuming_trace args ds w :
  ∃ t (k : nat),
    log (start_consuming consuming
           (on_msg json_loads decode_ignore fault args) ds w).1
      = log w ++ t ∧
    settlements t = handle <$> take k ds ∧
    Forall (λ c, is_nack c.1 = false) t ∧
    acks_follow_display t.
Proof.
  revert w. induction ds as [|d rest IH]; intros w.
  { exists [], 0%nat. cbn. rewrite app_nil_r.
    repeat split; [constructor|].
    intros i ????; by rewrite lookup_nil in *. }
  rewrite start_consuming_cons, on_msg_unfold. cbv zeta.
  set (c := count (vars w) + 1). set (g := shown _ _ _ _ _).
  set (a := BasicAck _ _).
  destruct (fault (log w) g) as [e|].
  { exists [(g, Some e)], 0%nat. cbn.
    repeat split; [by repeat constructor|].
    apply acks_follow_display_1. }
  destruct (fault (log w ++ [_]) a) as [e|].
  { exists [(g, None); (a, Some e)], 1%nat. cbn. rewrite take_0.
    repeat split; [by repeat constructor|].
    apply acks_follow_display_2. }
  destruct (enough args c).
  - destruct (fault (log w ++ [_; _]) _) as [e|].
    + exists [(g, None); (a, None); (StopConsuming (ch_cb d), Some e)],
        1%nat.
      cbn. rewrite take_0. repeat split; [by repeat constructor|].
      apply acks_follow_display_3.
    + exists [(g, None); (a, None); (StopConsuming (ch_cb d), None)],
        1%nat.
      cbn. rewrite take_0. repeat split; [by repeat constructor|].
      apply acks_follow_display_3.
  - cbn [vars consuming]. destruct (consuming (vars w)).
    + destruct (IH (World (Build_locals c true)
                      (log w ++ [(g, None); (a, None)])))
        as (t & k & Hlog & Hset & Hnack & Hack).
      exists ([(g, None); (a, None)] ++ t), (S k).
      rewrite Hlog. cbn [log].
      split; [by rewrite <- app_assoc|].
      split; [unfold settlements in *; cbn; by rewrite Hset|].
      split; [by repeat constructor|].
      apply acks_follow_display_app; [apply acks_follow_display_2|done].
    + exists [(g, None); (a, None)], 1%nat. cbn. rewrite take_0.
      repeat split; [by repeat constructor|].
      apply acks_follow_display_2.
Qed.

Lemma on_msg_expect_zero nm d w :
  on_msg json_loads decode_ignore fault (Build_Namespace nm (Some 0)) d w
  = on_msg json_loads decode_ignore fault (Build_Namespace nm None) d w.
Proof. by rewrite !on_msg_unfold. Qed.

(** With the threshold at zero the loop never asks to stop. *)
Lemma start_consuming_never_stops nm ds w :
  ∃ t,
    log (start_consuming consuming
           (on_msg json_loads decode_ignore fault
              (Build_Namespace nm (Some 0))) ds w).1 = log w ++ t ∧
    Forall (λ c, is_stop c.1 = false) t.
Proof.
  revert w. induction ds as [|d rest IH]; intros w.
  { exists []. cbn. by rewrite app_nil_r. }
  rewrite start_consuming_cons, on_msg_unfold. cbv zeta.
  destruct (fault (log w) _) as [e|];
    [eexists; split; [done|by repeat constructor]|].
  destruct (fault (log w ++ [_]) _) as [e|];
    [eexists; split; [done|by repeat constructor]|].
  cbn [enough expect opt_int_truthy Z.eqb negb andb vars consuming].
  destruct (consuming (vars w));
    [|eexists; split; [done|by repeat constructor]].
  edestruct IH as (t & -> & Ht). cbn [log].
  eexists (_ ++ t). split; [by rewrite <- app_assoc|].
  apply Forall_app. split; [by repeat constructor|done].
Qed.

End Faults.

Lemma start_consuming_ext {V} (active : V → bool) f g ds (w : world V) :
  (∀ d w, f d w = g d w) →
  start_consuming active f ds w = start_consuming active g ds w.
Proof.
  intros Hfg. revert w. induction ds as [|d rest IH]; intros w; [done|].
  cbn [start_consuming]. run. rewrite Hfg.
  destruct (g d w) as [w' [[]|e]]; [|done].
  destruct (active (vars w')); [apply IH|done].
Qed.

(** The handler when no call fails. *)
Lemma on_msg_no_fault args d w :
  on_msg json_loads decode_ignore no_fault args d w =
    let c := count (vars w) + 1 in
    let g := shown json_loads decode_ignore args c d in
    let a := BasicAck (ch_cb d) (delivery_tag (method d)) in
    if enough args c
    then (World (Build_locals c false)
            (log w ++
             [(g, None); (a, None); (StopConsuming (ch_cb d), None)]),
          Ok tt)
    else (World (Build_locals c (consuming (vars w)))
            (log w ++ [(g, None); (a, None)]), Ok tt).
Proof. by rewrite on_msg_unfold. Qed.

(** The loop when no call fails: it returns; the [k] deliveries it
    handled are the first [k], each acknowledged; it handled all of them
    unless the consumer was stopped. *)
Lemma start_consuming_no_fault args ds w :
  ∃ (k : nat) t v,
    start_consuming consuming
      (on_msg json_loads decode_ignore no_fault args) ds w
      = (World v (log w ++ t), Ok tt) ∧
    (k ≤ length ds)%nat ∧
    count v = count (vars w) + Z.of_nat k ∧
    acked t = handle <$> take k ds ∧
    settlements t = acked t ∧
    (k = length ds ∨ consuming v = false).
Proof.
  revert w. induction ds as [|d rest IH]; intros w.
  { exists 0%nat, [], (vars w). cbn. rewrite app_nil_r, Z.add_0_r.
    destruct w; cbn. repeat split; auto. }
  rewrite start_consuming_cons, on_msg_no_fault. cbv zeta.
  destruct (enough args _); cbn [vars log consuming].
  - eexists 1%nat, _, _. split; [done|]. cbn. rewrite take_0.
    repeat split; [lia|by right].
  - destruct (consuming (vars w)).
    + edestruct IH as (k & t & v & -> & Hk & Hc & Ha & Hs & Hend).
      eexists (S k), (_ ++ t), v. cbn [log vars count] in *.
      split; [by rewrite <- app_assoc|]. split; [cbn; lia|].
      split; [lia|].
      split; [cbn; unfold acked in Ha; by rewrite Ha|].
      split; [unfold settlements, acked in *; cbn; by rewrite Hs|].
      destruct Hend as [->|]; [by left|by right].
    + eexists 1%nat, _, _. split; [done|]. cbn. rewrite take_0.
      repeat split; [lia|by right].
Qed.

(** The loop of a consumer that is consuming, when no call fails, call by
    call: the first [k] deliveries are shown and acknowledged in turn, and
    [k] falls short of all of them only where the threshold is reached,
    which the request to stop follows. *)
Lemma start_consuming_happy args ds w :
  consuming (vars w) = true →
  ∃ (k : nat) stop v,
    start_consuming consuming
      (on_msg json_loads decode_ignore no_fault args) ds w
      = (World v
           (log w ++
            concat (imap (handled json_loads decode_ignore args
                            (count (vars w))) (take k ds)) ++ stop),
         Ok tt) ∧
    (k ≤ length ds)%nat ∧
    count v = count (vars w) + Z.of_nat k ∧
    (∀ j : nat, (S j < k)%nat →
       enough args (count (vars w) + 1 + Z.of_nat j) = false) ∧
    (k = length ds ∧ stop = [] ∧ consuming v = true ∧
     (∀ j : nat, (j < k)%nat →
        enough args (count (vars w) + 1 + Z.of_nat j) = false)
     ∨
     ∃ (k' : nat) d,
       k = S k' ∧ ds !! k' = Some d ∧
       stop = [(StopConsuming (ch_cb d), None)] ∧ consuming v = false ∧
       enough args (count (vars w) + Z.of_nat k) = true).
Proof.
  revert w. induction ds as [|d rest IH]; intros w Hgo.
  { exists 0%nat, [], (vars w). cbn. rewrite app_nil_r, Z.add_0_r.
    destruct w; cbn in *. split; [done|]. split; [done|]. split; [done|].
    split; [intros; lia|]. left. repeat split; try done. intros; lia. }
  rewrite start_consuming_cons, on_msg_no_fault. cbv zeta.
  destruct (enough args (count (vars w) + 1)) eqn:Hn; cbn [vars log consuming].
  - eexists 1%nat, [_], _. cbn [take imap concat app length].
    rewrite take_0. cbn [imap concat app]. unfold handled.
    rewrite Z.add_0_r. cbn [app].
    split; [done|]. split; [lia|]. split; [done|].
    split; [intros; lia|]. right. exists 0%nat, d. by repeat split.
  - rewrite Hgo.
    destruct (IH (World (Build_locals (count (vars w) + 1) true)
                    (log w ++ handled json_loads decode_ignore args
                                (count (vars w)) 0 d)))
      as (k & stop & v & Hrun & Hk & Hc & Hnot & Hend); [done|].
    unfold handled at 1 in Hrun. rewrite Z.add_0_r in Hrun.
    rewrite Hrun. cbn [log vars count] in *.
    exists (S k), stop, v. cbn [take length].
    assert (Hshift : ∀ j : nat,
              count (vars w) + 1 + Z.of_nat (S j)
              = count (vars w) + 1 + 1 + Z.of_nat j) by (intros; lia).
    split.
    { f_equal. f_equal. rewrite imap_cons. cbn [concat].
      rewrite <- !app_assoc. f_equal.
      assert (Himap :
                imap (handled json_loads decode_ignore args (count (vars w))
                        ∘ S) (take k rest)
                = imap (handled json_loads decode_ignore args
                          (count (vars w) + 1)) (take k rest)).
      { apply imap_ext. intros j d' _. unfold compose, handled.
        by rewrite Hshift. }
      rewrite Himap.
      change (handled json_loads decode_ignore args (count (vars w)) 0 d)
        with ([(shown json_loads decode_ignore args (count (vars w) + 1 + 0)
                  d, None);
               (BasicAck (ch_cb d) (delivery_tag (method d)), None)]
              : trace).
      by rewrite Z.add_0_r. }
    split; [lia|]. split; [lia|].
    split.
    { intros [|j] Hj; [by rewrite Z.add_0_r|].
      rewrite Hshift. apply Hnot. lia. }
    destruct Hend as [(-> & -> & Hv & Hall)|(k' & d' & -> & Hd & -> & Hv & He)].
    + left. repeat split; try done.
      intros [|j] Hj; [by rewrite Z.add_0_r|].
      rewrite Hshift. apply Hall. lia.
    + right. exists (S k'), d'. repeat split; try done.
      rewrite <- He. f_equal. lia.
Qed.

Lemma start_consuming_expect_zero_all nm ds c t :
  ∃ t',
    start_consuming consuming
      (on_msg json_loads decode_ignore no_fault
         (Build_Namespace nm (Some 0))) ds
      (World (Build_locals c true) t)
    = (World (Build_locals (c + Z.of_nat (length ds)) true) (t ++ t'),
       Ok tt).
Proof.
  revert c t. induction ds as [|d rest IH]; intros c t.
  { exists []. cbn. by rewrite app_nil_r, Z.add_0_r. }
  rewrite start_consuming_cons, on_msg_no_fault.
  cbn -[start_consuming Z.add Z.of_nat].
  edestruct IH as (t' & ->). eexists (_ ++ t').
  rewrite <- app_assoc. do 3 f_equal. lia.
Qed.

End Handler.

(** C5: when the body of a delivery is not valid JSON, the terminal
    consumer's handler shows the raw bytes decoded as text, with the
    sequence shown as [?], as its first call; whatever it raises was raised
    by a call and not by the decoding; when no call fails it shows the text,
    acknowledges the delivery and returns, and the consume loop that
    receives such a delivery returns normally. *)
Theorem non_json_body_is_shown_raw_and_acknowledged
    (json_loads : bytes → option json) (decode_ignore : bytes → string)
    (fault : trace → effect → option exn)
    (args : Consumer.Namespace) (d : delivery) (w : world Consumer.locals)
    (Hinvalid : json_loads (body d) = None) :
  let raw :=
    Print (Got (Consumer.name args) (Consumer.count (vars w) + 1)
             (Consumer.msg_id_of (props d)) (Consumer.producer_of (props d))
             (JStr "?") (JStr (decode_ignore (body d)))) in
  let ack := BasicAck (ch_cb d) (delivery_tag (method d)) in
  (∃ t,
     log (Consumer.on_msg json_loads decode_ignore fault args d w).1
       = log w ++ (raw, fault (log w) raw) :: t) ∧
  (∀ e,
     (Consumer.on_msg json_loads decode_ignore fault args d w).2 = Raised e →
     ∃ call,
       last (log (Consumer.on_msg json_loads decode_ignore fault args d w).1)
         = Some (call, Some e)) ∧
  (∃ t v,
     Consumer.on_msg json_loads decode_ignore no_fault args d w
       = (World v (log w ++ (raw, None) :: (ack, None) :: t), Ok tt) ∧
     Forall (λ c, is_stop c.1 = true) t) ∧
  (∀ ds,
     (start_consuming Consumer.consuming
        (Consumer.on_msg json_loads decode_ignore no_fault args)
        (d :: ds) w).2 = Ok tt).
Proof.
  intros raw ack.
  assert (Hraw : shown json_loads decode_ignore args
                   (Consumer.count (vars w) + 1) d = raw).
  { unfold shown. by rewrite decoded_invalid. }
  split; [|split; [|split]].
  - rewrite on_msg_unfold. cbv zeta. rewrite Hraw.
    repeat (match goal with
            | |- context [match ?x with _ => _ end] =>
                destruct x eqn:?
            end); cbn; eauto.
  - apply on_msg_raises_from_call.
  - rewrite on_msg_no_fault. cbv zeta. rewrite Hraw.
    destruct (Consumer.enough _ _); eexists _, _; split; try done;
      by repeat constructor.
  - intros ds.
    by destruct (start_consuming_no_fault json_loads decode_ignore args
                   (d :: ds) w) as (k & t & v & -> & _).
Qed.

Lemma non_json_body_is_shown_raw_and_acknowledged_witness :
  Sample.json_loads (body Sample.first) = None ∧
  let raw := Print (Got "Worker" 1 JNull JNull (JStr "?") (JStr "café")) in
  let ack := BasicAck 1%nat 1 in
  (∃ t,
     log (Consumer.on_msg Sample.json_loads Sample.decode_ignore
            Sample.display_fails Sample.worker Sample.first
            Consumer.initial).1
       = [] ++ (raw, Sample.display_fails [] raw) :: t) ∧
  (∀ e,
     (Consumer.on_msg Sample.json_loads Sample.decode_ignore
        Sample.display_fails Sample.worker Sample.first
        Consumer.initial).2 = Raised e →
     ∃ call,
       last (log (Consumer.on_msg Sample.json_loads Sample.decode_ignore
                    Sample.display_fails Sample.worker Sample.first
                    Consumer.initial).1)
         = Some (call, Some e)) ∧
  (∃ t v,
     Consumer.on_msg Sample.json_loads Sample.decode_ignore no_fault
       Sample.worker Sample.first Consumer.initial
       = (World v ([] ++ (raw, None) :: (ack, None) :: t), Ok tt) ∧
     Forall (λ c, is_stop c.1 = true) t) ∧
  (∀ ds,
     (start_consuming Consumer.consuming
        (Consumer.on_msg Sample.json_loads Sample.decode_ignore no_fault
           Sample.worker)
        (Sample.first :: ds) Consumer.initial).2 = Ok tt).
Proof.
  split; [reflexivity|].
  exact (non_json_body_is_shown_raw_and_acknowledged Sample.json_loads
           Sample.decode_ignore Sample.display_fails Sample.worker
           Sample.first Consumer.initial eq_refl).
Defined.

(** C6: when the deliveries carry distinct handles, the terminal consumer
    settles each handle at most once, by an acknowledgement on the channel
    that delivered it and never by a negative acknowledgement, in the order
    of delivery, and every acknowledgement stands directly after the display
    of its message has returned.  When no call fails, a consumer that is
    consuming skips nothing: its calls are, for each delivery in turn, the
    message line and then the acknowledgement of that delivery on the
    channel that delivered it, and nothing else but the one request to stop
    that follows the delivery with which the threshold is reached; up to
    that delivery, or to the last one if the threshold is not reached, every
    delivery is acknowledged exactly once, and the loop returns. *)
Theorem every_handle_is_settled_once
    (json_loads : bytes → option json) (decode_ignore : bytes → string)
    (fault : trace → effect → option exn)
    (args : Consumer.Namespace) (ds : list delivery)
    (w : world Consumer.locals)
    (Hdistinct : NoDup (handle <$> ds))
    (Hconsuming : Consumer.consuming (vars w) = true) :
  (∃ t (k : nat),
     log (start_consuming Consumer.consuming
            (Consumer.on_msg json_loads decode_ignore fault args) ds w).1
       = log w ++ t ∧
     settlements t = handle <$> take k ds ∧
     NoDup (settlements t) ∧
     Forall (λ c, is_nack c.1 = false) t ∧
     acks_follow_display t) ∧
  (∃ (k : nat) stop v,
     start_consuming Consumer.consuming
       (Consumer.on_msg json_loads decode_ignore no_fault args) ds w
       = (World v
            (log w ++
             concat (imap (handled json_loads decode_ignore args
                             (Consumer.count (vars w))) (take k ds))
             ++ stop),
          Ok tt) ∧
     (k ≤ length ds)%nat ∧
     acked (concat (imap (handled json_loads decode_ignore args
                            (Consumer.count (vars w))) (take k ds)) ++ stop)
       = handle <$> take k ds ∧
     NoDup (handle <$> take k ds) ∧
     (∀ j : nat, (S j < k)%nat →
        Consumer.enough args (Consumer.count (vars w) + 1 + Z.of_nat j)
          = false) ∧
     (k = length ds ∧ stop = [] ∧ Consumer.consuming v = true ∧
      (∀ j : nat, (j < k)%nat →
         Consumer.enough args (Consumer.count (vars w) + 1 + Z.of_nat j)
           = false)
      ∨
      ∃ (k' : nat) d,
        k = S k' ∧ ds !! k' = Some d ∧
        stop = [(StopConsuming (ch_cb d), None)] ∧
        Consumer.consuming v = false ∧
        Consumer.enough args (Consumer.count (vars w) + Z.of_nat k) = true)).
Proof.
  split.
  - destruct (start_consuming_trace json_loads decode_ignore fault args ds w)
      as (t & k & Hlog & Hset & Hnack & Hack).
    exists t, k. repeat split; try done.
    rewrite Hset, fmap_take.
    exact (sublist_NoDup _ _ Hdistinct (sublist_take _ _)).
  - destruct (start_consuming_happy json_loads decode_ignore args ds w
                Hconsuming)
      as (k & stop & v & Hrun & Hk & Hc & Hnot & Hend).
    exists k, stop, v. split; [done|]. split; [done|].
    split.
    { assert (Hstop : acked stop = []).
      { destruct Hend as [(_ & -> & _)|(? & ? & _ & _ & -> & _)]; done. }
      unfold acked in *. rewrite omap_app, Hstop, app_nil_r.
      generalize (Consumer.count (vars w)). clear.
      induction (take k ds) as [|d l IH]; intros c; [done|].
      rewrite imap_cons. cbn [concat]. rewrite omap_app. cbn.
      f_equal. rewrite <- (IH (c + 1)). f_equal. f_equal.
      apply imap_ext. intros j d' _. unfold handled. cbn.
      do 3 f_equal; lia. }
    split; [|done].
    rewrite fmap_take. exact (sublist_NoDup _ _ Hdistinct (sublist_take _ _)).
Qed.

Lemma every_handle_is_settled_once_witness :
  NoDup (handle <$> [Sample.first; Sample.second]) ∧
  Consumer.consuming (vars Consumer.initial) = true ∧
  ∃ v,
    start_consuming Consumer.consuming
      (Consumer.on_msg Sample.json_loads Sample.decode_ignore no_fault
         Sample.worker)
      [Sample.first; Sample.second] Consumer.initial
    = (World v
         [(Print (Got "Worker" 1 JNull JNull (JStr "?") (JStr "café")),
           None);
          (BasicAck 1%nat 1, None);
          (Print (Got "Worker" 2 JNull JNull (JStr "?") (JStr "world")),
           None);
          (BasicAck 1%nat 2, None)],
       Ok tt).
Proof.
  assert (H : NoDup (handle <$> [Sample.first; Sample.second]))
    by (apply (bool_decide_unpack _); vm_compute; exact I).
  split; [exact H|]. split; [reflexivity|].
  destruct (every_handle_is_settled_once Sample.json_loads
              Sample.decode_ignore Sample.settle_fails Sample.worker
              [Sample.first; Sample.second] Consumer.initial H eq_refl)
    as [_ (k & stop & v & Hrun & Hk & _ & _ & _ & Hend)].
  exists v. rewrite Hrun. f_equal. f_equal.
  destruct Hend as [(-> & -> & _)|(k' & d & -> & _ & _ & _ & Hn)].
  - reflexivity.
  - destruct k' as [|[|k']]; [discriminate Hn|discriminate Hn|].
    cbn in Hk. lia.
Defined.

(** C10: with [expect] equal to 0 the handler and the whole consume run do
    exactly what they do with [expect] absent; the loop never asks the
    channel to stop, whatever fails; and when no call fails it handles every
    delivery it is given and is still consuming afterwards. *)
Theorem expect_zero_disables_the_threshold
    (json_loads : bytes → option json) (decode_ignore : bytes → string)
    (fault : trace → effect → option exn)
    (nm : string) (ds : list delivery) (c : Z) (t : trace) :
  let zero := Consumer.Build_Namespace nm (Some 0) in
  let none := Consumer.Build_Namespace nm None in
  let w := World (Consumer.Build_locals c true) t in
  (∀ d w',
     Consumer.on_msg json_loads decode_ignore fault zero d w' =
     Consumer.on_msg json_loads decode_ignore fault none d w') ∧
  Consumer.consume json_loads decode_ignore fault zero ds w =
  Consumer.consume json_loads decode_ignore fault none ds w ∧
  (∃ t',
     log (start_consuming Consumer.consuming
            (Consumer.on_msg json_loads decode_ignore fault zero) ds w).1
       = t ++ t' ∧
     Forall (λ call, is_stop call.1 = false) t') ∧
  (∃ t',
     start_consuming Consumer.consuming
       (Consumer.on_msg json_loads decode_ignore no_fault zero) ds w
     = (World (Consumer.Build_locals (c + Z.of_nat (length ds)) true)
          (t ++ t'), Ok tt)).
Proof.
  intros zero none w.
  split; [intros d w'; apply on_msg_expect_zero|].
  split.
  - unfold Consumer.consume. run.
    destruct (fault t _); cbn; [done|].
    by rewrite (start_consuming_ext _ _
                  (Consumer.on_msg json_loads decode_ignore fault none))
      by (intros; apply on_msg_expect_zero).
  - split.
    + apply (start_consuming_never_stops json_loads decode_ignore fault
               nm ds w).
    + apply start_consuming_expect_zero_all.
Qed.

(** C1, on the failing input: the display of the first of two deliveries
    raises.  The terminal consumer's handler lets the exception through: no
    negative acknowledgement is made, the second delivery is never handled
    and [main] ends with the exception.  The handler in [consumer_gui.py],
    on the same delivery, logs the failure and negatively acknowledges it
    with requeue. *)
Theorem handler_error_is_not_nacked_by_terminal_consumer :
  Consumer.consume Sample.json_loads Sample.decode_ignore
    Sample.display_fails Sample.worker [Sample.first; Sample.second]
    Consumer.initial
  = (World (Consumer.Build_locals 1 true)
       [(Print (Waiting "Worker"), None);
        (Print (Got "Worker" 1 JNull JNull (JStr "?") (JStr "café")),
         Some UnicodeEncodeError);
        (Print (ConsumerDone "Worker" 1), None);
        (ConnClose, None)],
     Raised UnicodeEncodeError) ∧
  ConsumerGui.on_msg Sample.json_loads Sample.decode_ignore
    Sample.display_fails Sample.worker Sample.first Consumer.initial
  = (World (Consumer.Build_locals 1 true)
       [(Print (Got "Worker" 1 JNull JNull (JStr "?") (JStr "café")),
         Some UnicodeEncodeError);
        (Print (ErrorInCallback "Worker" UnicodeEncodeError), None);
        (PrintExc, None);
        (BasicNack 1%nat 1 true, None)],
     Ok tt).
Proof. split; reflexivity. Qed.

(** C7, on the failing input: the acknowledgement of the first of two
    deliveries raises.  The terminal consumer's handler lets the exception
    through: the second delivery is never handled and [main] ends with the
    exception.  The handler in [consumer_gui.py], on the same delivery,
    logs the failure, attempts a negative acknowledgement, ignores that this
    fails as well, and returns. *)
Theorem ack_failure_ends_the_terminal_consumer :
  Consumer.consume Sample.json_loads Sample.decode_ignore
    Sample.settle_fails Sample.worker [Sample.first; Sample.second]
    Consumer.initial
  = (World (Consumer.Build_locals 1 true)
       [(Print (Waiting "Worker"), None);
        (Print (Got "Worker" 1 JNull JNull (JStr "?") (JStr "café")), None);
        (BasicAck 1%nat 1, Some StreamLostError);
        (Print (ConsumerDone "Worker" 1), None);
        (ConnClose, None)],
     Raised StreamLostError) ∧
  ConsumerGui.on_msg Sample.json_loads Sample.decode_ignore
    Sample.settle_fails Sample.worker Sample.first Consumer.initial
  = (World (Consumer.Build_locals 1 true)
       [(Print (Got "Worker" 1 JNull JNull (JStr "?") (JStr "café")), None);
        (BasicAck 1%nat 1, Some StreamLostError);
        (Print (ErrorInCallback "Worker" StreamLostError), None);
        (PrintExc, None);
        (BasicNack 1%nat 1 true, Some StreamLostError)],
     Ok tt).
Proof. split; reflexivity. Qed.

(** For every input: an exception of the display or of the acknowledgement
    leaves the terminal consumer's handler as it came. *)
Lemma terminal_handler_lets_errors_through
    (json_loads : bytes → option json) (decode_ignore : bytes → string)
    (fault : trace → effect → option exn)
    (args : Consumer.Namespace) (d : delivery) (w : world Consumer.locals)
    (e : exn) :
  let g := shown json_loads decode_ignore args
             (Consumer.count (vars w) + 1) d in
  let a := BasicAck (ch_cb d) (delivery_tag (method d)) in
  (fault (log w) g = Some e →
   Consumer.on_msg json_loads decode_ignore fault args d w =
     (World (Consumer.Build_locals (Consumer.count (vars w) + 1)
               (Consumer.consuming (vars w)))
        (log w ++ [(g, Some e)]), Raised e)) ∧
  (fault (log w) g = None → fault (log w ++ [(g, None)]) a = Some e →
   Consumer.on_msg json_loads decode_ignore fault args d w =
     (World (Consumer.Build_locals (Consumer.count (vars w) + 1)
               (Consumer.consuming (vars w)))
        (log w ++ [(g, None); (a, Some e)]), Raised e)).
Proof.
  intros g a. split.
  - intros Hg. rewrite on_msg_unfold. cbv zeta. fold g. by rewrite Hg.
  - intros Hg Ha. rewrite on_msg_unfold. cbv zeta. fold g a.
    by rewrite Hg, Ha.
Qed.

(** ** The producer's loop *)

Lemma range_length a b : length (range a b) = Z.to_nat (b - a).
Proof. unfold range. by rewrite length_map, length_seq. Qed.

Lemma range_cons a b : a < b → range a b = a :: range (a + 1) b.
Proof.
  intros Hab. unfold range.
  replace (Z.to_nat (b - a)) with (S (Z.to_nat (b - (a + 1)))) by lia.
  cbn [seq map]. f_equal; [lia|].
  rewrite <- seq_shift, map_map. apply map_ext. intros k. lia.
Qed.


Lemma for_each_cons {S A} (x : A) xs (body : A → M S unit) s :
  for_each (x :: xs) body s =
    match body x s with
    | (s', Ok _) => for_each xs body s'
    | (s', Raised e) => (s', Raised e)
    end.
Proof. cbn. unfold bind. by destruct (body x s) as [s' [[]|e]]. Qed.

Section Publishing.

Import Producer.

Variable uuid4 : nat → string.
Variable time_time : nat → Z.
Variable dumps : json → bytes.

Section Faults.

Variable fault : trace → effect → option exn.

(** One round of the loop, call by call. *)
Lemma publish_one_unfold args ch i w :
  publish_one uuid4 time_time dumps fault args ch i w =
    let k := uuid_draws (vars w) in
    let c := clock_reads (vars w) in
    let p := with_id_and_time (props (vars w)) (uuid4 k) (time_time c) in
    let v := Build_locals p (S k) (S c) in
    let e := BasicPublish ch (exchange args) (routing_key args)
               (dumps (payload args i)) p in
    let l := Print (Published i (count args)) in
    match fault (log w) e with
    | Some x => (World v (log w ++ [(e, Some x)]), Raised x)
    | None =>
        if progress_every args =? 0
        then (World v (log w ++ [(e, None)]), Raised ZeroDivisionError)
        else if i mod progress_every args =? 0
        then (World v
                (log w ++
                 [(e, None); (l, fault (log w ++ [(e, None)]) l)]),
              outcome (fault (log w ++ [(e, None)]) l))
        else (World v (log w ++ [(e, None)]), Ok tt)
    end.
Proof.
  unfold publish_one, fresh_message_id, stamp, py_mod. run.
  fold (with_id_and_time (props (vars w)) (uuid4 (uuid_draws (vars w)))
          (time_time (clock_reads (vars w)))).
  destruct (fault (log w) _) as [x|]; cbn; [done|].
  destruct (progress_every args =? 0); cbn; [done|].
  destruct (_ mod _ =? 0); cbn; [|done].
  rewrite <- app_assoc. cbn.
  by destruct (fault _ _).
Qed.


End Faults.

(** With a cadence other than zero and no failing call the loop returns,
    having published once for every index and printed a progress line for
    every index that the cadence divides. *)
Lemma publish_loop_no_fault args ch (idx : list Z) w :
  progress_every args ≠ 0 →
  ∃ t v,
    for_each idx (publish_one uuid4 time_time dumps no_fault args ch) w
      = (World v (log w ++ t), Ok tt) ∧
    length (publications t) = length idx ∧
    printed t = (λ i, Published i (count args))
                  <$> filter (λ i, i mod progress_every args = 0) idx.
Proof.
  intros Hpe. apply Z.eqb_neq in Hpe.
  revert w. induction idx as [|i rest IH]; intros w.
  { exists [], (vars w). cbn. rewrite app_nil_r. by destruct w. }
  rewrite for_each_cons, publish_one_unfold. cbv zeta.
  unfold no_fault at 1. rewrite Hpe.
  destruct (Z.eqb_spec (i mod progress_every args) 0) as [Hi|Hi].
  - unfold no_fault at 1 2. cbn [outcome].
    edestruct IH as (t & v & -> & Hlen & Hpr). cbn [log].
    eexists (_ ++ t), v. split; [by rewrite <- app_assoc|].
    split; [unfold publications in *; cbn; by rewrite Hlen|].
    rewrite filter_cons_True by done. cbn. unfold printed in Hpr.
    by rewrite Hpr.
  - edestruct IH as (t & v & -> & Hlen & Hpr). cbn [log].
    eexists (_ ++ t), v. split; [by rewrite <- app_assoc|].
    split; [unfold publications in *; cbn; by rewrite Hlen|].
    rewrite filter_cons_False by done. cbn. unfold printed in Hpr.
    by rewrite Hpr.
Qed.

End Publishing.



(** C9: for a run with [count >= 1] in which no call fails, the remainder
    [i % progress_every] is taken after each publish: with [progress_every]
    equal to 0 the loop raises [ZeroDivisionError] right after the first
    message is published, and publishes nothing more; with any other
    cadence it returns, having published [count] messages and printed a
    progress line for exactly those positions that the cadence divides. *)
Theorem zero_progress_every_divides_by_zero
    (uuid4 : nat → string) (time_time : nat → Z) (dumps : json → bytes)
    (exchange routing_key : string) (count : Z) (text : string)
    (durable : bool) (progress_every : Z) (producer_id : string)
    (ch : channel) (w : world Producer.locals)
    (Hcount : 1 ≤ count) (Hcadence : progress_every ≠ 0) :
  let zero :=
    Producer.Build_Namespace exchange routing_key count text durable 0
      producer_id in
  let args :=
    Producer.Build_Namespace exchange routing_key count text durable
      progress_every producer_id in
  (∃ v p,
     Producer.publish_all uuid4 time_time dumps no_fault zero ch w
       = (World v
            (log w ++
             [(BasicPublish ch exchange routing_key
                 (dumps (Producer.payload zero 1)) p, None)]),
          Raised ZeroDivisionError)) ∧
  (∃ v t,
     Producer.publish_all uuid4 time_time dumps no_fault args ch w
       = (World v (log w ++ t), Ok tt) ∧
     length (publications t) = Z.to_nat count ∧
     printed t = (λ i, Published i count)
                   <$> filter (λ i, i mod progress_every = 0)
                         (range 1 (count + 1))).
Proof.
  intros zero args. split.
  - unfold Producer.publish_all. cbn [Producer.count zero].
    rewrite range_cons by lia.
    rewrite for_each_cons, publish_one_unfold. cbv zeta.
    unfold no_fault at 1. cbn. by eexists _, _.
  - unfold Producer.publish_all.
    destruct (publish_loop_no_fault uuid4 time_time dumps args ch
                (range 1 (Producer.count args + 1)) w Hcadence)
      as (t & v & Hrun & Hlen & Hpr).
    exists v, t. split; [done|]. split; [|done].
    rewrite Hlen, range_length. cbn [Producer.count args]. lia.
Qed.

Lemma zero_progress_every_divides_by_zero_witness :
  1 ≤ 3 ∧ 2 ≠ 0 ∧
  let zero :=
    Producer.Build_Namespace "direct.exchange" "work" 3 "Hello World" false 0
      "alice" in
  let args :=
    Producer.Build_Namespace "direct.exchange" "work" 3 "Hello World" false
      2 "alice" in
  (∃ v p,
     Producer.publish_all Sample.uuid4 Sample.time_time Sample.dumps no_fault
       zero 1%nat (Producer.initial Sample.three "demo")
       = (World v
            ([] ++
             [(BasicPublish 1%nat "direct.exchange" "work"
                 (Sample.dumps (Producer.payload zero 1)) p, None)]),
          Raised ZeroDivisionError)) ∧
  (∃ v t,
     Producer.publish_all Sample.uuid4 Sample.time_time Sample.dumps no_fault
       args 1%nat (Producer.initial Sample.three "demo")
       = (World v ([] ++ t), Ok tt) ∧
     length (publications t) = Z.to_nat 3 ∧
     printed t = (λ i, Published i 3)
                   <$> filter (λ i, i mod 2 = 0) (range 1 (3 + 1))).
Proof.
  assert (H1 : 1 ≤ 3) by lia.
  assert (H2 : 2 ≠ 0) by lia.
  split; [exact H1|]. split; [exact H2|].
  exact (zero_progress_every_divides_by_zero Sample.uuid4 Sample.time_time
           Sample.dumps "direct.exchange" "work" 3 "Hello World" false 2
           "alice" 1%nat (Producer.initial Sample.three "demo") H1 H2).
Defined.

(** ** More on the producer's loop *)

Section PublishingMore.

Import Producer.
Variable uuid4 : nat → string.
Variable time_time : nat → Z.
Variable dumps : json → bytes.

Variable fault : trace → effect → option exn.

Lemma publish_loop_envelopes args ch (idx : list Z) w :
  ∃ t (k : nat),
    log (for_each idx (publish_one uuid4 time_time dumps fault args ch) w).1
      = log w ++ t ∧
    (k ≤ length idx)%nat ∧
    publications t
      = imap (envelope uuid4 time_time dumps args (props (vars w)) (uuid_draws (vars w))
                (clock_reads (vars w))) (take k idx) ∧
    vars (for_each idx (publish_one uuid4 time_time dumps fault args ch) w).1
      = match k with
        | O => vars w
        | S k' =>
            Build_locals
              (with_id_and_time (props (vars w))
                 (uuid4 (uuid_draws (vars w) + k'))
                 (time_time (clock_reads (vars w) + k')))
              (uuid_draws (vars w) + k) (clock_reads (vars w) + k)
        end ∧
    (∀ (i : nat) c e, t !! i = Some (c, Some e) →
       S i = length t ∧
       (for_each idx (publish_one uuid4 time_time dumps fault args ch) w).2
         = Raised e) ∧
    ((for_each idx (publish_one uuid4 time_time dumps fault args ch) w).2
       = Ok tt → k = length idx).
Proof.
  revert w. induction idx as [|i rest IH]; intros w.
  { exists [], 0%nat. cbn. rewrite app_nil_r. by repeat split. }
  rewrite for_each_cons, publish_one_unfold. cbv zeta.
  set (p := with_id_and_time _ _ _). set (e := BasicPublish _ _ _ _ _).
  set (v := Build_locals _ _ _).
  assert (Henv : envelope uuid4 time_time dumps args (props (vars w)) (uuid_draws (vars w))
                   (clock_reads (vars w)) 0 i = (dumps (payload args i), p)).
  { unfold envelope, p. by rewrite !Nat.add_0_r. }
  assert (Hv : v = Build_locals
            (with_id_and_time (props (vars w)) (uuid4 (uuid_draws (vars w) + 0))
               (time_time (clock_reads (vars w) + 0)))
            (uuid_draws (vars w) + 1) (clock_reads (vars w) + 1)).
  { unfold v, p. f_equal; [by rewrite !Nat.add_0_r|lia|lia]. }
  destruct (fault (log w) e) as [x|].
  { exists [(e, Some x)], 1%nat. cbn [fst snd log vars take]. rewrite take_0.
    split; [done|]. split; [cbn; lia|]. split; [cbn; by rewrite Henv|].
    split; [done|]. split; [|done].
    intros [|n] c e' Hn; simplify_eq/=; done. }
  destruct (progress_every args =? 0).
  { exists [(e, None)], 1%nat. cbn [fst snd log vars take]. rewrite take_0.
    split; [done|]. split; [cbn; lia|]. split; [cbn; by rewrite Henv|].
    split; [done|]. split; [|done].
    intros [|n] c e' Hn; simplify_eq/=. }
  assert (Hstep : ∀ b : trace,
    Forall (λ c, c.2 = None) b →
    publications b = [(dumps (payload args i), p)] →
    ∃ t (k : nat),
      log (for_each rest (publish_one uuid4 time_time dumps fault args ch)
             (World v (log w ++ b))).1 = log w ++ t ∧
      (k ≤ length (i :: rest))%nat ∧
      publications t
        = imap (envelope uuid4 time_time dumps args (props (vars w)) (uuid_draws (vars w))
                  (clock_reads (vars w))) (take k (i :: rest)) ∧
      vars (for_each rest (publish_one uuid4 time_time dumps fault args ch)
              (World v (log w ++ b))).1
        = match k with
          | O => vars w
          | S k' =>
              Build_locals
                (with_id_and_time (props (vars w))
                   (uuid4 (uuid_draws (vars w) + k'))
                   (time_time (clock_reads (vars w) + k')))
                (uuid_draws (vars w) + k) (clock_reads (vars w) + k)
          end ∧
      (∀ (n : nat) c e, t !! n = Some (c, Some e) →
         S n = length t ∧
         (for_each rest (publish_one uuid4 time_time dumps fault args ch)
            (World v (log w ++ b))).2 = Raised e) ∧
      ((for_each rest (publish_one uuid4 time_time dumps fault args ch)
          (World v (log w ++ b))).2 = Ok tt → k = length (i :: rest))).
  { intros b Hb Hpub.
    destruct (IH (World v (log w ++ b)))
      as (t & k & Hlog & Hk & Hp & Hvars & Hfail & Hok).
    cbn [log vars] in *.
    exists (b ++ t), (S k). rewrite Hlog.
    split; [by rewrite <- app_assoc|]. split; [cbn; lia|].
    split.
    { unfold publications in *. rewrite omap_app, Hpub, Hp. cbn [take].
      rewrite imap_cons, Henv. cbn. f_equal.
      apply imap_ext. intros j y _. unfold envelope, v, p. cbn.
      do 3 f_equal; lia. }
    split.
    { rewrite Hvars. destruct k as [|k']; [by rewrite Hv|].
      unfold v, p. cbn. f_equal; [|lia|lia]. do 2 f_equal; lia. }
    split; [|intros H; cbn; f_equal; by apply Hok].
    intros n c e' Hn. apply lookup_app_Some in Hn as [Hn|[Hlen Hn]].
    - apply list_elem_of_lookup_2 in Hn.
      rewrite Forall_forall in Hb. by apply Hb in Hn.
    - destruct (Hfail _ _ _ Hn) as [Hl Hr]. split; [|done].
      rewrite length_app. lia. }
  destruct (i mod progress_every args =? 0).
  - destruct (fault (log w ++ [_]) _) as [x|] eqn:Hx; cbn [outcome].
    + eexists [(e, None); (_, Some x)], 1%nat. cbn [fst snd log vars take].
      rewrite take_0.
      split; [done|]. split; [cbn; lia|]. split; [cbn; by rewrite Henv|].
      split; [done|]. split; [|done].
      intros [|[|n]] c e' Hn; simplify_eq/=; done.
    + apply Hstep; [by repeat constructor|done].
  - apply Hstep; [by repeat constructor|done].
Qed.
End PublishingMore.

(** X1: every message the producer publishes carries the content type, the
    application id and the two headers that [main] set up before the loop,
    and is marked persistent (delivery mode 2) exactly when [--durable] is
    given; the loop changes only the identifier and the timestamp, and sets
    both on every message. *)
Theorem published_properties_keep_the_frame
    (uuid4 : nat → string) (time_time : nat → Z) (dumps : json → bytes)
    (fault : trace → effect → option exn)
    (args : Producer.Namespace) (hostname : string) (ch : channel) :
  Forall
    (λ bp : bytes * BasicProperties,
       content_type bp.2 = Some "application/json" ∧
       delivery_mode bp.2 = Some (if Producer.durable args then 2 else 1) ∧
       app_id bp.2 = Some "rabbitmq.producer" ∧
       headers bp.2
         = Some [("producer_id", JStr (Producer.producer_id args));
                 ("host", JStr hostname)] ∧
       is_Some (message_id bp.2) ∧ is_Some (timestamp bp.2))
    (publications
       (log (Producer.publish_all uuid4 time_time dumps fault args ch
               (Producer.initial args hostname)).1)).
Proof.
  unfold Producer.publish_all.
  destruct (publish_loop_envelopes uuid4 time_time dumps fault args ch
              (range 1 (Producer.count args + 1))
              (Producer.initial args hostname))
    as (t & k & Hlog & _ & Hp & _).
  rewrite Hlog.
  change (log (Producer.initial args hostname) ++ t) with t. rewrite Hp.
  apply Forall_lookup_2. intros j [b p] Hj.
  rewrite list_lookup_imap in Hj.
  destruct (take k _ !! j) as [i|]; [|done].
  unfold envelope in Hj. simplify_eq/=.
  repeat split; by eexists.
Qed.

(** X2: the loop draws one identifier and reads the clock once for every
    publish call it makes, failed or not; the [j]-th message carries the
    [j]-th reading; and when the loop ends the one properties object that
    [main] keeps updating holds the identifier and timestamp of the last
    message published. *)
Theorem one_draw_and_one_reading_per_publish
    (uuid4 : nat → string) (time_time : nat → Z) (dumps : json → bytes)
    (fault : trace → effect → option exn)
    (args : Producer.Namespace) (ch : channel) (w : world Producer.locals) :
  ∃ t,
    log (Producer.publish_all uuid4 time_time dumps fault args ch w).1
      = log w ++ t ∧
    Producer.uuid_draws
      (vars (Producer.publish_all uuid4 time_time dumps fault args ch w).1)
      = (Producer.uuid_draws (vars w) + length (publications t))%nat ∧
    Producer.clock_reads
      (vars (Producer.publish_all uuid4 time_time dumps fault args ch w).1)
      = (Producer.clock_reads (vars w) + length (publications t))%nat ∧
    (λ bp, timestamp bp.2) <$> publications t
      = (λ j, Some (time_time j))
          <$> seq (Producer.clock_reads (vars w)) (length (publications t)) ∧
    Producer.props
      (vars (Producer.publish_all uuid4 time_time dumps fault args ch w).1)
      = default (Producer.props (vars w)) (snd <$> last (publications t)).
Proof.
  unfold Producer.publish_all.
  destruct (publish_loop_envelopes uuid4 time_time dumps fault args ch
              (range 1 (Producer.count args + 1)) w)
    as (t & k & Hlog & Hk & Hp & Hv & _).
  exists t. split; [done|].
  assert (Hlen : length (publications t) = k).
  { rewrite Hp, length_imap, length_take. lia. }
  rewrite Hlen, Hv, Hp.
  split; [destruct k; cbn; lia|]. split; [destruct k; cbn; lia|].
  split.
  { rewrite fmap_imap.
    rewrite (imap_ext _ (λ j _, Some (time_time (Producer.clock_reads (vars w) + j)%nat)))
      by done.
    rewrite (imap_seq _ (λ j, Some (time_time j))), length_take.
    by replace (k `min` length (range 1 (Producer.count args + 1)))%nat
      with k by lia. }
  destruct k as [|k']; [by rewrite take_0|].
  rewrite last_lookup, length_imap, length_take.
  replace (pred (S k' `min` length (range 1 (Producer.count args + 1))))%nat
    with k' by lia.
  rewrite list_lookup_imap.
  destruct (lookup_lt_is_Some_2 (take (S k') (range 1 (Producer.count args + 1))) k')
    as [i ->]; [rewrite length_take; lia|].
  done.
Qed.

(** X3: progress reporting does not affect delivery.  With no failing call,
    two runs that differ only in a non-zero [--progress-every] publish the
    same messages with the same properties, end in the same state and both
    return. *)
Theorem progress_cadence_does_not_change_what_is_published
    (uuid4 : nat → string) (time_time : nat → Z) (dumps : json → bytes)
    (exchange routing_key : string) (count : Z) (text : string)
    (durable : bool) (cadence cadence' : Z) (producer_id : string)
    (ch : channel) (w : world Producer.locals)
    (Hcadence : cadence ≠ 0) (Hcadence' : cadence' ≠ 0) :
  let args :=
    Producer.Build_Namespace exchange routing_key count text durable cadence
      producer_id in
  let args' :=
    Producer.Build_Namespace exchange routing_key count text durable cadence'
      producer_id in
  publications
    (log (Producer.publish_all uuid4 time_time dumps no_fault args ch w).1)
  = publications
      (log (Producer.publish_all uuid4 time_time dumps no_fault args' ch w).1) ∧
  vars (Producer.publish_all uuid4 time_time dumps no_fault args ch w).1
  = vars (Producer.publish_all uuid4 time_time dumps no_fault args' ch w).1 ∧
  (Producer.publish_all uuid4 time_time dumps no_fault args ch w).2 = Ok tt ∧
  (Producer.publish_all uuid4 time_time dumps no_fault args' ch w).2 = Ok tt.
Proof.
  intros args args'. unfold Producer.publish_all.
  change (Producer.count args') with (Producer.count args).
  set (idx := range 1 (Producer.count args + 1)).
  destruct (publish_loop_envelopes uuid4 time_time dumps no_fault args ch idx w)
    as (t & k & Hlog & _ & Hp & Hv & _ & Hok).
  destruct (publish_loop_envelopes uuid4 time_time dumps no_fault args' ch idx w)
    as (t' & k' & Hlog' & _ & Hp' & Hv' & _ & Hok').
  destruct (publish_loop_no_fault uuid4 time_time dumps args ch idx w Hcadence)
    as (t1 & v1 & Hrun & _).
  destruct (publish_loop_no_fault uuid4 time_time dumps args' ch idx w Hcadence')
    as (t1' & v1' & Hrun' & _).
  rewrite Hrun in *. rewrite Hrun' in *. cbn [fst snd] in *.
  specialize (Hok eq_refl). specialize (Hok' eq_refl). subst k k'.
  cbn [log vars] in *.
  apply app_inv_head in Hlog as ->. apply app_inv_head in Hlog' as ->.
  split; [|by rewrite Hv, Hv'].
  unfold publications in *. by rewrite !omap_app, Hp, Hp'.
Qed.

Lemma progress_cadence_does_not_change_what_is_published_witness :
  10000 ≠ 0 ∧ 1 ≠ 0 ∧
  let args :=
    Producer.Build_Namespace "direct.exchange" "work" 3 "Hello World" false
      10000 "alice" in
  let args' :=
    Producer.Build_Namespace "direct.exchange" "work" 3 "Hello World" false
      1 "alice" in
  publications
    (log (Producer.publish_all Sample.uuid4 Sample.time_time Sample.dumps
            no_fault args 1%nat (Producer.initial Sample.three "demo")).1)
  = publications
      (log (Producer.publish_all Sample.uuid4 Sample.time_time Sample.dumps
              no_fault args' 1%nat (Producer.initial Sample.three "demo")).1) ∧
  vars (Producer.publish_all Sample.uuid4 Sample.time_time Sample.dumps
          no_fault args 1%nat (Producer.initial Sample.three "demo")).1
  = vars (Producer.publish_all Sample.uuid4 Sample.time_time Sample.dumps
            no_fault args' 1%nat (Producer.initial Sample.three "demo")).1 ∧
  (Producer.publish_all Sample.uuid4 Sample.time_time Sample.dumps no_fault
     args 1%nat (Producer.initial Sample.three "demo")).2 = Ok tt ∧
  (Producer.publish_all Sample.uuid4 Sample.time_time Sample.dumps no_fault
     args' 1%nat (Producer.initial Sample.three "demo")).2 = Ok tt.
Proof.
  assert (H1 : 10000 ≠ 0) by lia.
  assert (H2 : 1 ≠ 0) by lia.
  split; [exact H1|]. split; [exact H2|].
  exact (progress_cadence_does_not_change_what_is_published Sample.uuid4
           Sample.time_time Sample.dumps "direct.exchange" "work" 3
           "Hello World" false 10000 1 "alice" 1%nat
           (Producer.initial Sample.three "demo") H1 H2).
Defined.

(** X4: the producer never retries and never goes on after a failure: in
    every run a call that raises is the last call of the run, and the run
    ends with the exception of that call. *)
Theorem a_failed_call_ends_the_run
    (uuid4 : nat → string) (time_time : nat → Z) (dumps : json → bytes)
    (fault : trace → effect → option exn)
    (args : Producer.Namespace) (ch : channel) (w : world Producer.locals) :
  ∃ t,
    log (Producer.publish_all uuid4 time_time dumps fault args ch w).1
      = log w ++ t ∧
    ∀ (i : nat) call e, t !! i = Some (call, Some e) →
      S i = length t ∧
      (Producer.publish_all uuid4 time_time dumps fault args ch w).2
        = Raised e.
Proof.
  unfold Producer.publish_all.
  destruct (publish_loop_envelopes uuid4 time_time dumps fault args ch
              (range 1 (Producer.count args + 1)) w)
    as (t & k & Hlog & _ & _ & _ & Hfail & _).
  by exists t.
Qed.

(** X5: with no failing call the loop ends in [ZeroDivisionError] exactly
    when [progress_every] is 0 and [count] is at least 1, and returns
    otherwise; with [count] below 1 it makes no call, draws no identifier
    and leaves everything as it was, whatever the cadence. *)
Theorem run_divides_by_zero_exactly_when
    (uuid4 : nat → string) (time_time : nat → Z) (dumps : json → bytes)
    (args : Producer.Namespace) (ch : channel) (w : world Producer.locals) :
  ((Producer.publish_all uuid4 time_time dumps no_fault args ch w).2
     = Raised ZeroDivisionError
   ↔ Producer.progress_every args = 0 ∧ 1 ≤ Producer.count args) ∧
  ((Producer.publish_all uuid4 time_time dumps no_fault args ch w).2
     = Raised ZeroDivisionError ∨
   (Producer.publish_all uuid4 time_time dumps no_fault args ch w).2
     = Ok tt) ∧
  (Producer.count args < 1 →
   Producer.publish_all uuid4 time_time dumps no_fault args ch w
     = (w, Ok tt)).
Proof.
  assert (Hempty : Producer.count args < 1 →
            Producer.publish_all uuid4 time_time dumps no_fault args ch w
              = (w, Ok tt)).
  { intros Hc. unfold Producer.publish_all, range.
    by replace (Z.to_nat (Producer.count args + 1 - 1)) with 0%nat by lia. }
  assert (Hzero : Producer.progress_every args = 0 → 1 ≤ Producer.count args →
            (Producer.publish_all uuid4 time_time dumps no_fault args ch w).2
              = Raised ZeroDivisionError).
  { intros Hpe Hc. unfold Producer.publish_all.
    rewrite range_cons by lia.
    rewrite for_each_cons, publish_one_unfold. cbv zeta.
    unfold no_fault at 1. by rewrite Hpe. }
  assert (Hok : Producer.progress_every args ≠ 0 →
            (Producer.publish_all uuid4 time_time dumps no_fault args ch w).2
              = Ok tt).
  { intros Hpe. unfold Producer.publish_all.
    by destruct (publish_loop_no_fault uuid4 time_time dumps args ch
                   (range 1 (Producer.count args + 1)) w Hpe)
      as (t & v & -> & _). }
  split; [|split; [|done]].
  - split; [|intros [??]; by apply Hzero].
    intros Hr.
    destruct (decide (Producer.progress_every args = 0)) as [Hpe|Hpe];
      [|by rewrite Hok in Hr].
    split; [done|].
    destruct (decide (1 ≤ Producer.count args)); [done|].
    by rewrite Hempty in Hr by lia.
  - destruct (decide (Producer.progress_every args = 0)) as [Hpe|Hpe];
      [|right; by apply Hok].
    destruct (decide (1 ≤ Producer.count args));
      [left; by apply Hzero|right].
    by rewrite Hempty by lia.
Qed.

(** ** More on the terminal consumer *)

Section HandlerMore.

Import Consumer.

Variable json_loads : bytes → option json.
Variable decode_ignore : bytes → string.
Variable fault : trace → effect → option exn.



(** One delivery more before the threshold is reached. *)
Lemma enough_not_yet nm e c :
  enough (Build_Namespace nm (Some e)) (c + 1) = false →
  e ≠ 0 →
  Z.to_nat (Z.max 1 (e - c)) = S (Z.to_nat (Z.max 1 (e - (c + 1)))).
Proof.
  unfold enough. cbn. intros H He.
  apply andb_false_iff in H as [H|H].
  - apply negb_false_iff, Z.eqb_eq in H. done.
  - apply bool_decide_eq_false in H. lia.
Qed.

Lemma enough_reached nm e c :
  enough (Build_Namespace nm (Some e)) (c + 1) = true →
  Z.to_nat (Z.max 1 (e - c)) = 1%nat.
Proof.
  unfold enough. cbn. intros H.
  apply andb_true_iff in H as [_ H]. apply bool_decide_eq_true in H. lia.
Qed.

End HandlerMore.

(** X7: with a threshold [expect] other than 0 and no failing call, a
    consumer that has counted [c] deliveries handles exactly
    [max 1 (expect - c)] more, acknowledges each, asks the channel once to
    stop, as its last call, and stops; if fewer deliveries arrive it
    handles them all and goes on consuming.  A threshold that is negative
    or already passed therefore stops the consumer after one more
    message. *)
Theorem threshold_stops_after_the_right_number
    (json_loads : bytes → option json) (decode_ignore : bytes → string)
    (nm : string) (expect : Z) (ds : list delivery) (c : Z) (t0 : trace)
    (Hexpect : expect ≠ 0) :
  let args := Consumer.Build_Namespace nm (Some expect) in
  let need := Z.to_nat (Z.max 1 (expect - c)) in
  let k := (need `min` length ds)%nat in
  ∃ t,
    start_consuming Consumer.consuming
      (Consumer.on_msg json_loads decode_ignore no_fault args) ds
      (World (Consumer.Build_locals c true) t0)
    = (World (Consumer.Build_locals (c + Z.of_nat k)
                (bool_decide (length ds < need)%nat))
         (t0 ++ t), Ok tt) ∧
    acked t = handle <$> take k ds ∧
    if bool_decide (length ds < need)%nat
    then Forall (λ call, is_stop call.1 = false) t
    else ∃ t' ch, t = t' ++ [(StopConsuming ch, None)] ∧
                  Forall (λ call, is_stop call.1 = false) t'.
Proof.
  intros args. revert c t0. induction ds as [|d rest IH]; intros c t0 need k.
  { exists []. unfold k, need. cbn. rewrite Nat.min_0_r, app_nil_r, Z.add_0_r.
    rewrite bool_decide_eq_true_2 by lia. by repeat split. }
  rewrite start_consuming_cons, on_msg_no_fault. cbv zeta.
  cbn [vars log Consumer.count Consumer.consuming].
  destruct (Consumer.enough args (c + 1)) eqn:Hen.
  - pose proof (enough_reached _ _ _ Hen) as Hneed. fold need in Hneed.
    cbn [vars Consumer.consuming].
    unfold k. rewrite Hneed. cbn [length Nat.min].
    rewrite bool_decide_eq_false_2 by lia.
    eexists [_; _; _]. split; [done|]. split; [cbn; by rewrite take_0|].
    eexists [_; _], _. split; [done|]. by repeat constructor.
  - pose proof (enough_not_yet _ _ _ Hen Hexpect) as Hneed. fold need in Hneed.
    cbn [vars Consumer.consuming].
    destruct (IH (c + 1) (t0 ++ [(shown json_loads decode_ignore args
                                    (c + 1) d, None);
                                 (BasicAck (ch_cb d) (delivery_tag (method d)),
                                  None)]))
      as (t & Hrun & Hack & Hstop).
    cbv zeta in Hrun, Hack, Hstop. rewrite Hrun.
    unfold k. rewrite Hneed. cbn [length Nat.min].
    set (need' := Z.to_nat (Z.max 1 (expect - (c + 1)))) in *.
    exists ([(shown json_loads decode_ignore args (c + 1) d, None);
             (BasicAck (ch_cb d) (delivery_tag (method d)), None)] ++ t).
    split.
    { rewrite <- app_assoc. do 3 f_equal; [lia|].
      apply bool_decide_ext. lia. }
    split; [cbn; unfold acked in Hack; by rewrite Hack|].
    rewrite (bool_decide_ext (S (length rest) < S need')%nat
                             (length rest < need')%nat) by lia.
    destruct (bool_decide (length rest < need')%nat).
    + apply Forall_app. split; [by repeat constructor|done].
    + destruct Hstop as (t' & ch & -> & Ht').
      eexists (_ ++ t'), ch. split; [by rewrite <- app_assoc|].
      apply Forall_app. split; [by repeat constructor|done].
Qed.

Lemma threshold_stops_after_the_right_number_witness :
  -5 ≠ 0 ∧
  let args := Consumer.Build_Namespace "Worker" (Some (-5)) in
  let need := Z.to_nat (Z.max 1 (-5 - 0)) in
  let k := (need `min` length [Sample.second; Sample.first])%nat in
  ∃ t,
    start_consuming Consumer.consuming
      (Consumer.on_msg Sample.json_loads Sample.decode_ignore no_fault args)
      [Sample.second; Sample.first]
      (World (Consumer.Build_locals 0 true) [])
    = (World (Consumer.Build_locals (0 + Z.of_nat k)
                (bool_decide
                   (length [Sample.second; Sample.first] < need)%nat))
         ([] ++ t), Ok tt) ∧
    acked t = handle <$> take k [Sample.second; Sample.first] ∧
    if bool_decide (length [Sample.second; Sample.first] < need)%nat
    then Forall (λ call, is_stop call.1 = false) t
    else ∃ t' ch, t = t' ++ [(StopConsuming ch, None)] ∧
                  Forall (λ call, is_stop call.1 = false) t'.
Proof.
  assert (H : -5 ≠ 0) by lia.
  split; [exact H|].
  exact (threshold_stops_after_the_right_number Sample.json_loads
           Sample.decode_ignore "Worker" (-5)
           [Sample.second; Sample.first] 0 [] H).
Defined.

Section ConsumeMore.

Import Consumer.

Variable json_loads : bytes → option json.
Variable decode_ignore : bytes → string.
Variable fault : trace → effect → option exn.

(** [main] from the waiting line on, step by step. *)
Lemma consume_unfold args ds w :
  consume json_loads decode_ignore fault args ds w =
    let hello := Print (Waiting (name args)) in
    match fault (log w) hello with
    | Some e => (World (vars w) (log w ++ [(hello, Some e)]), Raised e)
    | None =>
        let loop :=
          start_consuming consuming
            (on_msg json_loads decode_ignore fault args) ds
            (World (vars w) (log w ++ [(hello, None)])) in
        let bye := Print (ConsumerDone (name args) (count (vars loop.1))) in
        let r :=
          match loop.2 with
          | Raised e => if is_KeyboardInterrupt e then Ok tt else Raised e
          | Ok a => Ok a
          end in
        match fault (log loop.1) bye with
        | Some e =>
            (World (vars loop.1) (log loop.1 ++ [(bye, Some e)]), Raised e)
        | None =>
            match fault (log loop.1 ++ [(bye, None)]) ConnClose with
            | Some e =>
                (World (vars loop.1)
                   (log loop.1 ++ [(bye, None); (ConnClose, Some e)]),
                 if is_Exception e then r else Raised e)
            | None =>
                (World (vars loop.1)
                   (log loop.1 ++ [(bye, None); (ConnClose, None)]), r)
            end
        end
    end.
Proof.
  unfold consume. run.
  destruct (fault (log w) _) as [e|]; cbn; [done|].
  destruct (start_consuming _ _ _ _) as [[v1 l1] r1]. cbn.
  destruct r1 as [[]|e1]; cbn.
  - destruct (fault l1 _) as [e|]; cbn; [done|].
    rewrite <- !app_assoc. cbn.
    destruct (fault (l1 ++ [_]) _) as [e|]; cbn; [|done].
    by destruct (is_Exception e).
  - destruct (is_KeyboardInterrupt e1); cbn.
    + destruct (fault l1 _) as [e|]; cbn; [done|].
      rewrite <- !app_assoc. cbn.
      destruct (fault (l1 ++ [_]) _) as [e|]; cbn; [|done].
      by destruct (is_Exception e).
    + destruct (fault l1 _) as [e|]; cbn; [done|].
      rewrite <- !app_assoc. cbn.
      destruct (fault (l1 ++ [_]) _) as [e|]; cbn; [|done].
      by destruct (is_Exception e).
Qed.

End ConsumeMore.

(** X8: once the waiting line is out, the summary line is attempted right
    after the loop, whatever the loop did, and shows the number of
    deliveries received; if it cannot be printed the run ends with that
    error and the connection is not closed; otherwise [conn.close()] is
    attempted, a failure of it inside [Exception] changes nothing, and the
    run returns normally if the loop returned or raised
    [KeyboardInterrupt] and ends with the loop's exception otherwise. *)
Theorem summary_and_close_follow_the_loop
    (json_loads : bytes → option json) (decode_ignore : bytes → string)
    (fault : trace → effect → option exn)
    (args : Consumer.Namespace) (ds : list delivery)
    (w : world Consumer.locals)
    (Hhello : fault (log w) (Print (Waiting (Consumer.name args))) = None) :
  let loop :=
    start_consuming Consumer.consuming
      (Consumer.on_msg json_loads decode_ignore fault args) ds
      (World (vars w) (log w ++ [(Print (Waiting (Consumer.name args)), None)]))
  in
  let run := Consumer.consume json_loads decode_ignore fault args ds w in
  let bye :=
    Print (ConsumerDone (Consumer.name args) (Consumer.count (vars loop.1))) in
  let graceful :=
    match loop.2 with
    | Raised e => if is_KeyboardInterrupt e then Ok tt else Raised e
    | Ok a => Ok a
    end in
  vars run.1 = vars loop.1 ∧
  ∃ o rest,
    log run.1 = log loop.1 ++ (bye, o) :: rest ∧
    match o with
    | Some e => rest = [] ∧ run.2 = Raised e
    | None =>
        ∃ o', rest = [(ConnClose, o')] ∧
              run.2 = match o' with
                      | Some e => if is_Exception e then graceful
                                  else Raised e
                      | None => graceful
                      end
    end.
Proof.
  intros loop run bye graceful. unfold run.
  rewrite consume_unfold. cbv zeta. rewrite Hhello.
  fold loop. fold bye. fold graceful.
  destruct (fault (log loop.1) bye) as [e|].
  { split; [done|]. by exists (Some e), []. }
  destruct (fault (log loop.1 ++ [_]) ConnClose) as [e|].
  - split; [done|]. exists None, [(ConnClose, Some e)]. split; [done|].
    by exists (Some e).
  - split; [done|]. exists None, [(ConnClose, None)]. split; [done|].
    by exists None.
Qed.

Lemma summary_and_close_follow_the_loop_witness :
  Sample.settle_fails (log Consumer.initial) (Print (Waiting "Worker")) = None ∧
  let loop :=
    start_consuming Consumer.consuming
      (Consumer.on_msg Sample.json_loads Sample.decode_ignore
         Sample.settle_fails Sample.worker) [Sample.first; Sample.second]
      (World (vars Consumer.initial)
         (log Consumer.initial ++ [(Print (Waiting "Worker"), None)]))
  in
  let run :=
    Consumer.consume Sample.json_loads Sample.decode_ignore
      Sample.settle_fails Sample.worker [Sample.first; Sample.second]
      Consumer.initial in
  let bye := Print (ConsumerDone "Worker" (Consumer.count (vars loop.1))) in
  let graceful :=
    match loop.2 with
    | Raised e => if is_KeyboardInterrupt e then Ok tt else Raised e
    | Ok a => Ok a
    end in
  vars run.1 = vars loop.1 ∧
  ∃ o rest,
    log run.1 = log loop.1 ++ (bye, o) :: rest ∧
    match o with
    | Some e => rest = [] ∧ run.2 = Raised e
    | None =>
        ∃ o', rest = [(ConnClose, o')] ∧
              run.2 = match o' with
                      | Some e => if is_Exception e then graceful
                                  else Raised e
                      | None => graceful
                      end
    end.
Proof.
  split; [reflexivity|].
  exact (summary_and_close_follow_the_loop Sample.json_loads
           Sample.decode_ignore Sample.settle_fails Sample.worker
           [Sample.first; Sample.second] Consumer.initial eq_refl).
Defined.

(** X9: a body that [json.loads] accepts is shown by its fields only if it
    is an object, and a field that the object lacks is shown as [None];
    any other JSON value (a number, a string, a list, [null]) is shown like
    a body that is not JSON at all, as raw text with [?] for the sequence
    number.  In both cases the line is the handler's first call. *)
Theorem json_that_is_no_object_is_shown_raw
    (json_loads : bytes → option json) (decode_ignore : bytes → string)
    (fault : trace → effect → option exn)
    (args : Consumer.Namespace) (d : delivery) (w : world Consumer.locals)
    (j : json)
    (Hvalid : json_loads (body d) = Some j) :
  ∃ o,
    log (Consumer.on_msg json_loads decode_ignore fault args d w).1
      !! length (log w)
    = Some
        (Print
           (Got (Consumer.name args) (Consumer.count (vars w) + 1)
              (Consumer.msg_id_of (props d)) (Consumer.producer_of (props d))
              match j with
              | JObj items => default JNull (assoc "n" items)
              | _ => JStr "?"
              end
              match j with
              | JObj items => default JNull (assoc "text" items)
              | _ => JStr (decode_ignore (body d))
              end), o).
Proof.
  assert (Hshown :
    shown json_loads decode_ignore args (Consumer.count (vars w) + 1) d
    = Print
        (Got (Consumer.name args) (Consumer.count (vars w) + 1)
           (Consumer.msg_id_of (props d)) (Consumer.producer_of (props d))
           match j with
           | JObj items => default JNull (assoc "n" items)
           | _ => JStr "?"
           end
           match j with
           | JObj items => default JNull (assoc "text" items)
           | _ => JStr (decode_ignore (body d))
           end)).
  { unfold shown, decoded. rewrite Hvalid. by destruct j. }
  rewrite on_msg_unfold. cbv zeta. rewrite Hshown.
  repeat (match goal with
          | |- context [match ?x with _ => _ end] =>
              match x with
              | fault _ _ => destruct x
              | Consumer.enough _ _ => destruct x
              end
          end); cbn [fst log]; eexists;
    by rewrite list_lookup_middle.
Qed.

Lemma json_that_is_no_object_is_shown_raw_witness :
  (Demo.json_loads (body Demo.number) = Some (JInt 2) ∧
   ∃ o,
     log (Consumer.on_msg Demo.json_loads Sample.decode_ignore no_fault
            Sample.worker Demo.number Consumer.initial).1 !! 0%nat
     = Some (Print (Got "Worker" 1 JNull JNull (JStr "?") (JStr "2")), o)) ∧
  (Demo.json_loads (body Demo.empty_object) = Some (JObj []) ∧
   ∃ o,
     log (Consumer.on_msg Demo.json_loads Sample.decode_ignore no_fault
            Sample.worker Demo.empty_object Consumer.initial).1 !! 0%nat
     = Some (Print (Got "Worker" 1 JNull JNull JNull JNull), o)).
Proof.
  split; (split; [reflexivity|]).
  - exact (json_that_is_no_object_is_shown_raw Demo.json_loads
             Sample.decode_ignore no_fault Sample.worker Demo.number
             Consumer.initial (JInt 2) eq_refl).
  - exact (json_that_is_no_object_is_shown_raw Demo.json_loads
             Sample.decode_ignore no_fault Sample.worker Demo.empty_object
             Consumer.initial (JObj []) eq_refl).
Defined.

Lemma range_lookup (n j : nat) (i : Z) :
  range 1 (Z.of_nat n + 1) !! j = Some i → i = 1 + Z.of_nat j.
Proof.
  unfold range. intros H.
  change (((λ k : nat, 1 + Z.of_nat k) <$> seq 0 (Z.to_nat (Z.of_nat n + 1 - 1)))
            !! j = Some i) in H.
  apply list_lookup_fmap_Some in H as (k & -> & Hk).
  apply lookup_seq in Hk as [-> _]. done.
Qed.

(** X10: from producer to consumer.  If [json.loads] reads back what the
    producer serialised, then the [j]-th message of a producer run (counted
    from 0), delivered to the terminal consumer with the body and the
    properties it was published with, is shown with the identifier of the
    [j]-th draw, the producer's id from the headers, the sequence number
    [j + 1] and the producer's text, and is acknowledged. *)
Theorem published_message_is_displayed_as_sent
    (uuid4 : nat → string) (time_time : nat → Z) (dumps : json → bytes)
    (json_loads : bytes → option json) (decode_ignore : bytes → string)
    (fault : trace → effect → option exn)
    (pargs : Producer.Namespace) (hostname : string) (pch : channel)
    (cargs : Consumer.Namespace) (cch : channel) (m : Deliver)
    (w : world Consumer.locals)
    (j : nat) (b : bytes) (p : BasicProperties)
    (Hround :
       Forall (λ i, json_loads (dumps (Producer.payload pargs i))
                    = Some (Producer.payload pargs i))
              (range 1 (Producer.count pargs + 1)))
    (Hpublished :
       publications
         (log (Producer.publish_all uuid4 time_time dumps fault pargs pch
                 (Producer.initial pargs hostname)).1) !! j = Some (b, p)) :
  ∃ v t,
    Consumer.on_msg json_loads decode_ignore no_fault cargs
      (Build_delivery cch m (Some p) b) w
    = (World v
         (log w ++
          (Print
             (Got (Consumer.name cargs) (Consumer.count (vars w) + 1)
                (JStr (uuid4 j)) (JStr (Producer.producer_id pargs))
                (JInt (1 + Z.of_nat j)) (JStr (Producer.text pargs))), None)
          :: (BasicAck cch (delivery_tag m), None) :: t),
       Ok tt).
Proof.
  revert Hpublished. unfold Producer.publish_all.
  destruct (publish_loop_envelopes uuid4 time_time dumps fault pargs pch
              (range 1 (Producer.count pargs + 1))
              (Producer.initial pargs hostname))
    as (t & k & Hlog & _ & Hp & _).
  rewrite Hlog.
  change (log (Producer.initial pargs hostname) ++ t) with t. rewrite Hp.
  rewrite list_lookup_imap. intros Hj.
  destruct (take k _ !! j) as [i|] eqn:Hi; [|done].
  apply lookup_take_Some in Hi as [Hi _].
  assert (Hin : i ∈ range 1 (Producer.count pargs + 1))
    by (by eapply list_elem_of_lookup_2).
  rewrite Forall_forall in Hround. specialize (Hround _ Hin).
  assert (i = 1 + Z.of_nat j) as ->.
  { destruct (decide (0 ≤ Producer.count pargs)) as [Hc|Hc].
    - rewrite <- (Z2Nat.id (Producer.count pargs)) in Hi by done.
      by eapply range_lookup.
    - unfold range in Hi.
      by replace (Z.to_nat (Producer.count pargs + 1 - 1)) with 0%nat in Hi
        by lia. }
  unfold envelope in Hj. simplify_eq/=.
  rewrite on_msg_no_fault. cbv zeta.
  assert (Hshown :
    shown json_loads decode_ignore cargs (Consumer.count (vars w) + 1)
      (Build_delivery cch m
         (Some (with_id_and_time (Producer.initial_props pargs hostname)
                  (uuid4 j) (time_time j)))
         (dumps (Producer.payload pargs (1 + Z.of_nat j))))
    = Print
        (Got (Consumer.name cargs) (Consumer.count (vars w) + 1)
           (JStr (uuid4 j)) (JStr (Producer.producer_id pargs))
           (JInt (1 + Z.of_nat j)) (JStr (Producer.text pargs)))).
  { unfold shown, decoded. cbn [body props]. by rewrite Hround. }
  rewrite Hshown.
  destruct (Consumer.enough _ _); by eexists _, _.
Qed.

Lemma published_message_is_displayed_as_sent_witness :
  Forall (λ i, Demo.loads (Sample.dumps (Producer.payload Sample.three i))
               = Some (Producer.payload Sample.three i))
         (range 1 (Producer.count Sample.three + 1)) ∧
  publications
    (log (Producer.publish_all Sample.uuid4 Sample.time_time Sample.dumps
            no_fault Sample.three 1%nat
            (Producer.initial Sample.three "demo")).1) !! 1%nat
  = Some ([Byte.x32],
          with_id_and_time (Producer.initial_props Sample.three "demo")
            "id-1" 1700000001) ∧
  ∃ v t,
    Consumer.on_msg Demo.loads Sample.decode_ignore no_fault Sample.worker
      (Build_delivery 1%nat (Build_Deliver 7 None)
         (Some (with_id_and_time (Producer.initial_props Sample.three "demo")
                  "id-1" 1700000001))
         [Byte.x32])
      Consumer.initial
    = (World v
         (log Consumer.initial ++
          (Print
             (Got "Worker" (Consumer.count (vars Consumer.initial) + 1)
                (JStr (Sample.uuid4 1)) (JStr "alice")
                (JInt (1 + Z.of_nat 1)) (JStr "Hello World")), None)
          :: (BasicAck 1%nat 7, None) :: t),
       Ok tt).
Proof.
  assert (H1 : Forall (λ i, Demo.loads
                              (Sample.dumps (Producer.payload Sample.three i))
                            = Some (Producer.payload Sample.three i))
                 (range 1 (Producer.count Sample.three + 1)))
    by (repeat constructor).
  assert (H2 : publications
                 (log (Producer.publish_all Sample.uuid4 Sample.time_time
                         Sample.dumps no_fault Sample.three 1%nat
                         (Producer.initial Sample.three "demo")).1) !! 1%nat
               = Some ([Byte.x32],
                       with_id_and_time
                         (Producer.initial_props Sample.three "demo")
                         "id-1" 1700000001))
    by reflexivity.
  split; [exact H1|]. split; [exact H2|].
  exact (published_message_is_displayed_as_sent Sample.uuid4 Sample.time_time
           Sample.dumps Demo.loads Sample.decode_ignore no_fault Sample.three
           "demo" 1%nat Sample.worker 1%nat (Build_Deliver 7 None)
           Consumer.initial 1%nat _ _ H1 H2).
Defined.

(** ** More on the topology bootstrap *)

Lemma fits_Some_iff {A} (a cfg : A) : fits (Some a) cfg ↔ a = cfg.
Proof. unfold fits. naive_solver. Qed.

Lemma fits_dec {A} `{EqDecision A} (o : option A) (cfg : A) :
  fits o cfg ∨ ¬ fits o cfg.
Proof.
  destruct o as [a|]; [|by left; left].
  destruct (decide (a = cfg)) as [->|Hne]; [by left; right|].
  right. rewrite fits_Some_iff. done.
Qed.

Lemma respond_exchange_declare_closed b ch x ty d :
  ch ∉ open_channels b →
  respond (ExchangeDeclare ch x ty d) b = (b, Some ChannelWrongStateError).
Proof. intros Hch. simpl. by rewrite decide_False. Qed.

Lemma respond_queue_declare_closed b ch q p d a :
  ch ∉ open_channels b →
  respond (QueueDeclare ch q p d a) b = (b, Some ChannelWrongStateError).
Proof. intros Hch. simpl. by rewrite decide_False. Qed.

Lemma respond_exchange_declare_refused b ch x ty d :
  ch ∈ open_channels b →
  ¬ fits (exchanges b !! x) (Build_exchange_cfg ty d) →
  respond (ExchangeDeclare ch x ty d) b =
    (close_channel ch b, Some (ChannelClosedByBroker 406)).
Proof.
  intros Hopen Hfit. simpl. rewrite decide_True by done.
  destruct (exchanges b !! x) as [cfg|]; [|by destruct Hfit; left].
  rewrite decide_False; [done|]. intros ->. by apply Hfit; right.
Qed.

Lemma respond_queue_declare_refused b ch q d args :
  ch ∈ open_channels b →
  ¬ fits (queues b !! q) (Build_queue_cfg d args) →
  respond (QueueDeclare ch q false d args) b =
    (close_channel ch b, Some (ChannelClosedByBroker 406)).
Proof.
  intros Hopen Hfit. simpl. rewrite decide_True by done.
  destruct (queues b !! q) as [cfg|]; [|by destruct Hfit; left].
  rewrite decide_False; [done|]. intros ->. by apply Hfit; right.
Qed.




Lemma queue_arguments_inj lazy lazy' :
  queue_arguments lazy = queue_arguments lazy' → lazy = lazy'.
Proof.
  intros H. apply (f_equal (λ m : gmap string string, m !! "x-queue-mode")) in H.
  rewrite !queue_arguments_mode in H. by destruct lazy, lazy'.
Qed.

Section DeclareOutcome.

Variable ch : channel.
Variables x wq aq rk : string.
Variables durable lazy : bool.

(** The two ways [declare_topology] can end. *)
Lemma declare_topology_outcome w :
  (ch ∈ open_channels (vars w) ∧
   compatible (vars w) x wq aq durable lazy ∧
   Producer.declare_topology ch x wq aq rk durable lazy w
     = (World (declared (vars w) x wq aq rk durable lazy)
          (log w ++
           ((λ e, (e, None)) <$> topology_calls ch x wq aq rk durable lazy)),
        Ok tt)) ∨
  (∃ e,
     (Producer.declare_topology ch x wq aq rk durable lazy w).2 = Raised e ∧
     (ch ∉ open_channels
             (vars (Producer.declare_topology ch x wq aq rk durable lazy
                      w).1)) ∧
     ((e = ChannelWrongStateError ∧ ch ∉ open_channels (vars w)) ∨
      (e = ChannelClosedByBroker 406 ∧ ch ∈ open_channels (vars w) ∧
       ¬ compatible (vars w) x wq aq durable lazy))).
Proof.
  destruct (decide (ch ∈ open_channels (vars w))) as [Hopen|Hclosed].
  2:{ right. exists ChannelWrongStateError.
      unfold Producer.declare_topology, exchange_declare. run.
      rewrite respond_exchange_declare_closed by done. cbn.
      split; [done|]. split; [done|]. by left. }
  destruct (fits_dec (exchanges (vars w) !! x)
              (Build_exchange_cfg "direct" true)) as [Hx|Hx].
  2:{ right. exists (ChannelClosedByBroker 406).
      unfold Producer.declare_topology, exchange_declare. run.
      rewrite respond_exchange_declare_refused by done. cbn.
      split; [done|]. split; [set_solver|]. right.
      split; [done|]. split; [done|]. by intros (?&_). }
  destruct (fits_dec (queues (vars w) !! wq)
              (Build_queue_cfg durable (queue_arguments lazy))) as [Hw|Hw].
  2:{ right. exists (ChannelClosedByBroker 406).
      unfold Producer.declare_topology, exchange_declare, queue_declare.
      fold (queue_arguments lazy). run.
      rewrite respond_exchange_declare by done. cbn [vars log outcome].
      rewrite respond_queue_declare_refused by done. cbn.
      split; [done|]. split; [set_solver|]. right.
      split; [done|]. split; [done|]. by intros (_&?&_). }
  destruct (str_truthy aq) eqn:Haq.
  2:{ left. split; [done|].
      assert (Hc : compatible (vars w) x wq aq durable lazy).
      { split; [done|]. split; [done|]. by rewrite Haq. }
      split; [done|]. by apply declare_topology_compatible. }
  destruct (fits_dec (queues (vars w) !! aq)
              (Build_queue_cfg durable (queue_arguments lazy))) as [Ha|Ha].
  { left. split; [done|].
    assert (Hc : compatible (vars w) x wq aq durable lazy) by done.
    split; [done|]. by apply declare_topology_compatible. }
  right. exists (ChannelClosedByBroker 406).
  assert (Hne : wq ≠ aq).
  { intros ->. by apply Ha. }
  unfold Producer.declare_topology, exchange_declare, queue_declare,
    queue_bind.
  fold (queue_arguments lazy). rewrite Haq. run.
  rewrite respond_exchange_declare by done. cbn [vars log outcome].
  rewrite respond_queue_declare by done. cbn [vars log outcome].
  rewrite respond_queue_bind;
    cbn [vars log outcome open_channels queues exchanges];
    [|done|by rewrite lookup_insert_eq|by rewrite lookup_insert_eq].
  rewrite respond_queue_declare_refused;
    cbn [vars log outcome open_channels queues exchanges];
    [|done|by rewrite lookup_insert_ne].
  cbn. split; [done|]. split; [set_solver|]. right.
  split; [done|]. split; [done|]. intros (_&_&H). apply Ha. by apply H.
Qed.

End DeclareOutcome.

(** X11: [ensure_queue] returns exactly when the channel it is given is
    usable, and then the channel it returns is open and the queue exists;
    on a closed channel it raises after its first call, opens no channel,
    declares nothing and changes nothing. *)
Theorem ensure_queue_returns_exactly_on_a_usable_channel
    (w : world link) (ch : channel) (queue : string) (lazy : bool) :
  (ch ∈ open_channels (vars w) →
   ∃ ch',
     (Consumer.ensure_queue ch queue lazy w).2 = Ok ch' ∧
     ch' ∈ open_channels (vars (Consumer.ensure_queue ch queue lazy w).1) ∧
     is_Some (queues (vars (Consumer.ensure_queue ch queue lazy w).1)
                !! queue)) ∧
  (ch ∉ open_channels (vars w) →
   Consumer.ensure_queue ch queue lazy w
     = (World (vars w)
          (log w ++
           [(QueueDeclare ch queue true false ∅,
             Some ChannelWrongStateError)]),
        Raised ChannelWrongStateError)).
Proof.
  split.
  - intros Hopen. destruct (queues (vars w) !! queue) as [cfg|] eqn:Hq.
    + rewrite (ensure_queue_present _ _ _ _ cfg) by done. cbn.
      exists ch. by rewrite Hq.
    + rewrite ensure_queue_absent by done. cbn.
      eexists. split; [done|]. split; [set_solver|].
      by rewrite lookup_insert_eq.
  - intros Hclosed. unfold Consumer.ensure_queue, queue_declare. run.
    by rewrite respond_queue_declare_closed by done.
Qed.

(** X12: the producer's [declare_topology] returns exactly when the channel
    is usable and the broker holds nothing in conflict with the topology;
    otherwise it raises, because the channel was closed already or because
    the broker refused a declaration (406), and in both cases the channel
    is unusable afterwards.  A binding is never refused. *)
Theorem declare_topology_returns_exactly_when_compatible
    (w : world link) (ch : channel)
    (exchange work_queue audit_queue routing_key : string)
    (durable lazy : bool) :
  ((Producer.declare_topology ch exchange work_queue audit_queue routing_key
      durable lazy w).2 = Ok tt
   ↔ ch ∈ open_channels (vars w) ∧
     compatible (vars w) exchange work_queue audit_queue durable lazy) ∧
  (∀ e,
     (Producer.declare_topology ch exchange work_queue audit_queue
        routing_key durable lazy w).2 = Raised e →
     (ch ∉ open_channels
             (vars (Producer.declare_topology ch exchange work_queue
                      audit_queue routing_key durable lazy w).1)) ∧
     (e = ChannelWrongStateError ∨ e = ChannelClosedByBroker 406)).
Proof.
  destruct (declare_topology_outcome ch exchange work_queue audit_queue
              routing_key durable lazy w)
    as [(Hopen & Hc & ->)|(e & Hr & Hch & He)].
  - split; [by split|]. intros e He. discriminate He.
  - rewrite Hr. split.
    + split; [done|]. intros [Hopen Hc].
      destruct He as [[_ ?]|(_ & _ & ?)]; done.
    + intros e' [= <-]. split; [done|].
      destruct He as [[-> _]|[-> _]]; auto.
Qed.

(** X13: when the consumer is started first on a broker without the queue,
    it creates the queue durable and with its own [--lazy] setting; a
    producer that would have succeeded on that broker alone then succeeds
    exactly when it is run with [--durable] and the same [--lazy]
    setting. *)
Theorem producer_after_consumer_needs_matching_flags
    (w : world link) (ch : channel)
    (exchange queue audit_queue routing_key : string)
    (durable lazy_consumer lazy_producer : bool)
    (Hopen : ch ∈ open_channels (vars w))
    (Habsent : queues (vars w) !! queue = None)
    (Hcompat : compatible (vars w) exchange queue audit_queue durable
                 lazy_producer) :
  ∃ w1 ch1,
    Consumer.ensure_queue ch queue lazy_consumer w = (w1, Ok ch1) ∧
    ((Producer.declare_topology ch1 exchange queue audit_queue routing_key
        durable lazy_producer w1).2 = Ok tt
     ↔ durable = true ∧ lazy_producer = lazy_consumer).
Proof.
  eexists _, _. split; [by apply ensure_queue_absent|].
  set (w1 := World _ _).
  assert (Hopen1 : next_channel (vars w) ∈ open_channels (vars w1))
    by (cbn; set_solver).
  assert (Hiff : compatible (vars w1) exchange queue audit_queue durable
                   lazy_producer
                 ↔ durable = true ∧ lazy_producer = lazy_consumer).
  { destruct Hcompat as (Hx & Hq & Ha). unfold compatible. cbn.
    rewrite lookup_insert_eq, fits_Some_iff. split.
    - intros (_ & [= <- Hargs] & _). split; [done|].
      symmetry. by apply queue_arguments_inj.
    - intros [-> ->]. split; [done|]. split; [done|].
      intros Haq. apply fits_insert_other. by apply Ha. }
  destruct (declare_topology_outcome (next_channel (vars w)) exchange queue
              audit_queue routing_key durable lazy_producer w1)
    as [(_ & Hc & ->)|(e & -> & _ & He)].
  - split; [intros _; by apply Hiff|done].
  - split; [done|]. intros Hflags. apply Hiff in Hflags.
    destruct He as [[_ ?]|(_ & _ & ?)]; done.
Qed.

Lemma producer_after_consumer_needs_matching_flags_witness :
  1%nat ∈ open_channels (vars Sample.fresh_link) ∧
  queues (vars Sample.fresh_link) !! "work.queue" = None ∧
  compatible (vars Sample.fresh_link) "direct.exchange" "work.queue"
    "audit.queue" true true ∧
  ∃ w1 ch1,
    Consumer.ensure_queue 1%nat "work.queue" true Sample.fresh_link
      = (w1, Ok ch1) ∧
    ((Producer.declare_topology ch1 "direct.exchange" "work.queue"
        "audit.queue" "work" true true w1).2 = Ok tt
     ↔ true = true ∧ true = true).
Proof.
  assert (H : 1%nat ∈ open_channels (vars Sample.fresh_link))
    by (apply (bool_decide_unpack _); vm_compute; exact I).
  assert (Q : queues (vars Sample.fresh_link) !! "work.queue" = None)
    by reflexivity.
  assert (C : compatible (vars Sample.fresh_link) "direct.exchange"
                "work.queue" "audit.queue" true true)
    by (split; [left; reflexivity|]; split; [left; reflexivity|];
        intros _; left; reflexivity).
  split; [exact H|]. split; [exact Q|]. split; [exact C|].
  exact (producer_after_consumer_needs_matching_flags Sample.fresh_link 1%nat
           "direct.exchange" "work.queue" "audit.queue" "work" true true
           true H Q C).
Defined.


(** X15: the start of either program, from the connection to the finished
    bootstrap.  With an empty user name both end with [TypeError] before any
    call is made, and a connect that fails ends them with its exception
    after that one call.  Once connected, the consumer's start returns a
    usable channel: a queue that exists is used as it is, whatever [--lazy]
    says, and a queue that does not is created durable with the requested
    arguments; exchanges and bindings are left alone.  The producer's start
    returns exactly when it was given a user name, the connect returned and
    the broker holds nothing in conflict with the topology, and then
    exchange, work queue and binding exist. *)
Theorem start_of_consumer_and_producer
    (fault : trace → effect → option exn)
    (host vhost username password conn_name : string)
    (exchange queue audit_queue routing_key : string)
    (durable lazy : bool) (w : world link) :
  let pc :=
    Build_ConnectionParameters host vhost
      (Build_PlainCredentials username password) conn_name
      (Some 600) (Some 300) in
  let pp :=
    Build_ConnectionParameters host vhost
      (Build_PlainCredentials username password) conn_name None None in
  let c :=
    Main.consumer_start fault host vhost username password conn_name queue
      lazy w in
  let p :=
    Main.producer_start fault host vhost username password conn_name
      exchange queue audit_queue routing_key durable lazy w in
  (str_truthy username = false →
   c = (w, Raised TypeError) ∧ p = (w, Raised TypeError)) ∧
  (∀ e, str_truthy username = true → fault (log w) (Connect pc) = Some e →
     c = (World (vars w) (log w ++ [(Connect pc, Some e)]), Raised e)) ∧
  (∀ e, str_truthy username = true → fault (log w) (Connect pp) = Some e →
     p = (World (vars w) (log w ++ [(Connect pp, Some e)]), Raised e)) ∧
  (str_truthy username = true → fault (log w) (Connect pc) = None →
   (∃ ch, c.2 = Ok ch ∧ ch ∈ open_channels (vars c.1)) ∧
   exchanges (vars c.1) = exchanges (vars w) ∧
   bindings (vars c.1) = bindings (vars w) ∧
   queues (vars c.1)
     = match queues (vars w) !! queue with
       | Some _ => queues (vars w)
       | None => <[queue := Build_queue_cfg true (queue_arguments lazy)]>
                   (queues (vars w))
       end) ∧
  (p.2 = Ok tt
   ↔ str_truthy username = true ∧ fault (log w) (Connect pp) = None ∧
     compatible (vars w) exchange queue audit_queue durable lazy) ∧
  (p.2 = Ok tt →
   exchanges (vars p.1) !! exchange = Some (Build_exchange_cfg "direct" true) ∧
   queues (vars p.1) !! queue
     = Some (Build_queue_cfg durable (queue_arguments lazy)) ∧
   (queue, exchange, routing_key) ∈ bindings (vars p.1)).
Proof.
  cbv zeta.
  unfold Main.consumer_start, Main.producer_start, mbind, M_bind, bind.
  rewrite consumer_open_channel, producer_open_channel. cbv zeta.
  destruct (str_truthy username).
  2:{ split; [done|]. split; [done|]. split; [done|]. split; [done|].
      split; [|done]. split; [done|]. by intros [? _]. }
  split; [done|].
  split; [by intros e _ ->|].
  split; [by intros e _ ->|].
  split.
  - intros _ ->. set (w1 := World _ _).
    assert (Hopen1 : next_channel (vars w) ∈ open_channels (vars w1))
      by (cbn; set_solver).
    destruct (queues (vars w) !! queue) as [cfg|] eqn:Hq.
    + rewrite (ensure_queue_present w1 _ _ _ cfg) by done. cbn.
      repeat split; try done. by eexists.
    + rewrite (ensure_queue_absent w1) by done. cbn.
      repeat split; try done. eexists. split; [done|]. set_solver.
  - destruct (fault (log w) _) as [e|].
    { split; [|done]. split; [done|]. by intros (_ & ? & _). }
    set (w2 := World _ _).
    assert (Hopen2 : next_channel (vars w) ∈ open_channels (vars w2))
      by (cbn; set_solver).
    destruct (declare_topology_outcome (next_channel (vars w)) exchange queue
                audit_queue routing_key durable lazy w2)
      as [(_ & Hc & ->)|(e & Hr & _ & He)].
    + split; [done|]. intros _. cbn.
      rewrite lookup_insert_eq. split; [done|].
      destruct (str_truthy audit_queue).
      * split; [|set_solver].
        destruct (decide (audit_queue = queue)) as [->|Hne].
        -- by rewrite lookup_insert_eq.
        -- by rewrite lookup_insert_ne, lookup_insert_eq.
      * split; [by rewrite lookup_insert_eq|set_solver].
    + rewrite Hr. split; [|done]. split; [done|]. intros (_ & _ & Hc).
      destruct He as [[_ ?]|(_ & _ & ?)]; done.
Qed.

(** ** What ends the loop *)

Section LoopEnds.

Import Consumer.

Variable json_loads : bytes → option json.
Variable decode_ignore : bytes → string.
Variable fault : trace → effect → option exn.

(** X19: the terminal consumer's loop makes no call but message lines,
    acknowledgements and the request to stop: it declares nothing,
    publishes nothing and rejects nothing.  A call that raises and a
    request to stop are each the last call of the loop, so the loop never
    goes on after a failure, asks at most once to stop, and a call that
    raised decides how the loop ends. *)
Theorem loop_ends_with_the_first_failure_or_stop args ds w :
  ∃ t,
    log (start_consuming consuming
           (on_msg json_loads decode_ignore fault args) ds w).1
      = log w ++ t ∧
    Forall (λ c, loop_call c.1 = true) t ∧
    ∀ (i : nat) call o, t !! i = Some (call, o) →
      is_stop call = true ∨ is_Some o →
      S i = length t ∧
      ∀ e, o = Some e →
        (start_consuming consuming
           (on_msg json_loads decode_ignore fault args) ds w).2 = Raised e.
Proof.
  revert w. induction ds as [|d rest IH]; intros w.
  { exists []. cbn. rewrite app_nil_r. split; [done|]. split; [constructor|].
    intros i ???; by rewrite lookup_nil in *. }
  rewrite start_consuming_cons, on_msg_unfold. cbv zeta.
  set (c := count (vars w) + 1). set (g := shown _ _ _ _ _).
  set (a := BasicAck _ _).
  destruct (fault (log w) g) as [e|].
  { exists [(g, Some e)]. cbn. split; [done|].
    split; [by repeat constructor|].
    intros [|i] call o Hi _; simplify_eq/=. split; [done|]. by intros ? [= <-]. }
  destruct (fault (log w ++ [_]) a) as [e|].
  { exists [(g, None); (a, Some e)]. cbn. split; [done|].
    split; [by repeat constructor|].
    intros [|[|i]] call o Hi Hc; simplify_eq/=.
    - by destruct Hc as [|[]].
    - split; [done|]. by intros ? [= <-]. }
  destruct (enough args c).
  - destruct (fault (log w ++ [_; _]) _) as [e|].
    + exists [(g, None); (a, None); (StopConsuming (ch_cb d), Some e)].
      cbn. split; [done|]. split; [by repeat constructor|].
      intros [|[|[|i]]] call o Hi Hc; simplify_eq/=.
      * by destruct Hc as [|[]].
      * by destruct Hc as [|[]].
      * split; [done|]. by intros ? [= <-].
    + exists [(g, None); (a, None); (StopConsuming (ch_cb d), None)].
      cbn. split; [done|]. split; [by repeat constructor|].
      intros [|[|[|i]]] call o Hi Hc; simplify_eq/=.
      * by destruct Hc as [|[]].
      * by destruct Hc as [|[]].
      * done.
  - cbn [vars consuming]. destruct (consuming (vars w)).
    + destruct (IH (World (Build_locals c true)
                      (log w ++ [(g, None); (a, None)])))
        as (t & Hlog & Hcalls & Hend).
      exists ([(g, None); (a, None)] ++ t).
      rewrite Hlog. cbn [log].
      split; [by rewrite <- app_assoc|].
      split; [by repeat constructor|].
      intros [|[|i]] call o Hi Hc; simplify_eq/=.
      * by destruct Hc as [|[]].
      * by destruct Hc as [|[]].
      * destruct (Hend i call o Hi Hc) as [Hlen Hres]. split; [lia|done].
    + exists [(g, None); (a, None)]. cbn. split; [done|].
      split; [by repeat constructor|].
      intros [|[|i]] call o Hi Hc; simplify_eq/=.
      * by destruct Hc as [|[]].
      * by destruct Hc as [|[]].
Qed.

End LoopEnds.
